(** * qa_video_simple.py: Q&A text pairs to a narrated video

    A shallow embedding of [src/qa_video_simple.py].  Python strings are
    modelled as [string] (characters are the code points 0..255), integers
    as [Z] or [nat], durations (Python floats) as binary64 floating-point
    numbers, the kernel's [float] with its IEEE 754 addition; the width
    estimate [len * 24.0] is exact in floating point for every line that
    fits in memory, so it is computed in [Z].  The external collaborators
    (text-to-speech engine, soundfile, sounddevice, PIL's text rasteriser,
    moviepy's encoder, the file system) are parameters of the model: an
    [Env] of oracles, each of which may look at the whole [world].  Effects are threaded through a state
    and exception monad over that world, which holds the files, the
    directories, the lines printed and the encoder calls made. *)

From Stdlib Require Import PrimFloat FloatOps.
From Stdlib Require Import ZArith QArith Ascii String DecimalString List Bool Lia.
From stdpp Require Import base tactics option list strings gmap.
Import ListNotations.

Local Open Scope Z_scope.

(** ** Python string helpers *)

Module Py.

(** [str.isspace] on one character, for the code points 0..255. *)
Definition isspace (c : ascii) : bool :=
  let n := nat_of_ascii c in
  ((9 <=? n)%nat && (n <=? 13)%nat)
  || ((28 <=? n)%nat && (n <=? 32)%nat)
  || (n =? 133)%nat || (n =? 160)%nat.

(** [' '.join(l)] *)
Definition join (l : list string) : string := String.concat " " l.

(** [len(s)] *)
Definition len (s : string) : Z := Z.of_nat (String.length s).

(** [text.split()]: maximal runs of non-whitespace characters.  [cur] is
    the run read so far. *)
Fixpoint split_from (cur : string) (s : string) : list string :=
  match s with
  | EmptyString => if decide (cur = "") then [] else [cur]
  | String c s' =>
      if isspace c
      then (if decide (cur = "") then split_from "" s'
            else cur :: split_from "" s')
      else split_from (cur +:+ String c "") s'
  end.

Definition split (s : string) : list string := split_from "" s.

(** [s.lstrip()] and [s.strip()] *)
Fixpoint lstrip (s : string) : string :=
  match s with
  | EmptyString => EmptyString
  | String c s' => if isspace c then lstrip s' else s
  end.

Definition strip (s : string) : string :=
  String.rev (lstrip (String.rev (lstrip s))).

End Py.

(** ** Frame Renderer: [create_text_image] *)

Definition rgb : Type := Z * Z * Z.

(** A PIL image / numpy array of shape (height, width, 3): rows of pixels. *)
Definition image : Type := list (list rgb).

(** [Image.new('RGB', size, bg_color)] with [size = (width, height)]. *)
Definition Image_new (size : nat * nat) (bg_color : rgb) : image :=
  repeat (repeat bg_color (fst size)) (snd size).

(** The frame has exactly [size] pixels. *)
Definition has_size (size : nat * nat) (img : image) : Prop :=
  List.length img = snd size ∧ Forall (λ row, List.length row = fst size) img.

Definition margin : Z := 60.
Definition font_size : Z := 48.
(** [int(font_size * 1.5)] *)
Definition line_height : Z := font_size * 3 / 2.

(** [len(test_line) * (font_size / 2)] *)
Definition estimated_width (s : string) : Z := Py.len s * (font_size / 2).

(** [max_width = size[0] - 2 * margin] *)
Definition max_width (size : nat * nat) : Z := Z.of_nat (fst size) - 2 * margin.

(** One iteration of the loop [for word in words] (source lines 23-28);
    the state is [(lines, current_line)]. *)
Definition wrap_step (mw : Z) (st : list string * list string) (word : string)
  : list string * list string :=
  let '(lines, current_line) := st in
  let current_line := current_line ++ [word] in
  let test_line := Py.join current_line in
  if estimated_width test_line >? mw
  then (lines ++ [Py.join (removelast current_line)], [word])
  else (lines, current_line).

(** Source lines 30-31: [if current_line: lines.append(...)]. *)
Definition wrap_finish (st : list string * list string) : list string :=
  let '(lines, current_line) := st in
  match current_line with
  | [] => lines
  | _ => lines ++ [Py.join current_line]
  end.

(** The list [lines] computed by source lines 18-31. *)
Definition wrap_lines (text : string) (size : nat * nat) : list string :=
  wrap_finish (fold_left (wrap_step (max_width size)) (Py.split text) ([], [])).

Definition default_size : nat * nat := (1280%nat, 720%nat).
Definition default_bg : rgb := (0, 0, 128).
Definition white : rgb := (255, 255, 255).

Section Renderer.

(** PIL's [draw.text(xy, text, fill=..., size=...)]: paints into the image. *)
Variable draw_text : image → Z * Z → string → rgb → Z → image.

(** One iteration of the loop [for line in lines] (source lines 35-37);
    the state is [(image, y_position)]. *)
Definition draw_step (text_color : rgb) (st : image * Z) (line : string)
  : image * Z :=
  let '(img, y_position) := st in
  (draw_text img (margin, y_position) line text_color font_size,
   y_position + line_height).

Definition create_text_image (text : string) (size : nat * nat)
    (bg_color text_color : rgb) : image :=
  let img := Image_new size bg_color in
  let lines := wrap_lines text size in
  fst (fold_left (draw_step text_color) lines (img, margin)).

End Renderer.

(** The [(y_position, line)] arguments of the successive [draw.text] calls. *)
Fixpoint layout_from (y : Z) (lines : list string) : list (Z * string) :=
  match lines with
  | [] => []
  | line :: rest => (y, line) :: layout_from (y + line_height) rest
  end.

Definition text_layout (text : string) (size : nat * nat) : list (Z * string) :=
  layout_from margin (wrap_lines text size).

(** ** Exceptions, files and the world *)

(** The Python exceptions the program raises or receives from its
    collaborators; all of them are subclasses of [Exception]. *)
Inductive exn : Type :=
  | UnicodeDecodeError
  | ValueError (msg : string)
  | RuntimeError (msg : string)
  | ZeroDivisionError
  | OSError (msg : string)
  | LibraryError (msg : string).

Inductive result (A : Type) : Type :=
  | Ok (a : A)
  | Raise (e : exn).
Arguments Ok {A} a.
Arguments Raise {A} e.

(** A file is its bytes; the model keeps what each reader makes of them. *)
Record file : Type := File {
  (** [list(csv.reader(open(path, 'r', encoding=enc)))] *)
  as_csv : string → result (list (list string));
  (** [sf.read(path)]: number of frames and sample rate *)
  as_soundfile : result (Z * Z);
  (** [AudioFileClip(path).duration] *)
  as_audioclip : result float;
  (** [VideoFileClip(path)]: duration and the audio track's duration *)
  as_videoclip : result (float * option float);
}.

(** What [AudioFileClip(path)] returns. *)
Record audio_clip : Type := AudioClip {
  ac_filename : string;
  ac_duration : float;
}.

(** An [ImageClip] with its duration and audio track. *)
Record clip : Type := Clip {
  clip_frame : image;
  clip_duration : float;
  clip_audio : option audio_clip;
}.

(** The clip returned by [concatenate_videoclips]. *)
Record timeline : Type := Timeline {
  tl_clips : list clip;
  tl_duration : float;
}.

(** The keyword arguments of [write_videofile]. *)
Record encoder_cfg : Type := EncoderCfg {
  fps : Z;
  codec : string;
  audio_codec : string;
  audio_bitrate : string;
  ffmpeg_params : list string;
}.

(** The [print] calls of the program, one constructor per call site. *)
Inductive message : Type :=
  | MsgTrying (encoding : string)
  | MsgCsvRead (encoding : string)
  | MsgGenerating (text : string)
  | MsgAudioCreated (path : string)
  | MsgSampleRate (samplerate : Z) (frames : Z)
  | MsgTestingPlayback
  | MsgErrorTestingAudio (e : exn)
  | MsgClipDurations (q a : float)
  | MsgWarnDelete (e : exn)
  | MsgProcessing (i n : nat)
  | MsgProgress (i n : nat)
  | MsgCombining
  | MsgWriting
  | MsgFirstAttemptFailed (e : exn)
  | MsgTryingAlternate
  | MsgFileSize (path : string)
  | MsgWarnCleanup (e : exn)
  | MsgTestingAudioSystem
  | MsgAudioSystemOk
  | MsgCsvNotFound (path : string)
  | MsgReadingCsv
  | MsgNoPairs
  | MsgVideoCreated (path : string)
  | MsgTestingVideo
  | MsgVideoLoaded (duration : float)
  | MsgAudioTrack (present : bool)
  | MsgAudioDuration (duration : float)
  | MsgErrorTestingVideo (e : exn)
  | MsgError (e : exn).

Record world : Type := World {
  fs : gmap string file;
  dirs : gset string;
  stdout : list message;
  (** the [write_videofile] calls made so far, oldest first *)
  encodes : list encoder_cfg;
}.

(** What a collaborator that writes a file did: the file it left behind,
    if any, and the exception it raised, if any. *)
Record written : Type := Written {
  left_file : option file;
  raised : option exn;
}.

(** The collaborators.  Each may look at the whole world. *)
Record Env : Type := {
  draw_text : image → Z * Z → string → rgb → Z → image;
  (** [pyttsx3.init()] and the two [setProperty] calls *)
  engine_init : world → option exn;
  (** [engine.save_to_file(text, path); engine.runAndWait()] *)
  engine_run : world → string → string → written;
  (** [sd.play(data, samplerate); sd.wait()] on [frames] frames *)
  sd_play : world → Z → Z → option exn;
  (** [path.unlink()] *)
  unlink_error : world → string → option exn;
  (** [clip.write_videofile(path, ...)] *)
  write_videofile : world → timeline → string → encoder_cfg → written;
}.

(** ** A state-and-exception monad *)

Definition M (A : Type) : Type := world → result A * world.

Definition ret {A} (a : A) : M A := λ w, (Ok a, w).
Definition raise {A} (e : exn) : M A := λ w, (Raise e, w).
Definition bind {A B} (m : M A) (k : A → M B) : M B :=
  λ w, match m w with
       | (Ok a, w') => k a w'
       | (Raise e, w') => (Raise e, w')
       end.

Notation "x <- c1 ;; c2" := (bind c1 (λ x, c2))
  (at level 100, c1 at next level, right associativity).
Notation "e1 ;; e2" := (bind e1 (λ _, e2))
  (at level 100, right associativity).

(** [try: body except Exception as e: handler(e)] *)
Definition try_except {A} (body : M A) (handler : exn → M A) : M A :=
  λ w, match body w with
       | (Ok a, w') => (Ok a, w')
       | (Raise e, w') => handler e w'
       end.

(** [try: body finally: cleanup]: the cleanup runs on both exits, and an
    exception of the cleanup replaces the outcome of the body. *)
Definition try_finally {A} (body : M A) (cleanup : M unit) : M A :=
  λ w, match body w with
       | (r, w') =>
           match cleanup w' with
           | (Ok _, w'') => (r, w'')
           | (Raise e, w'') => (Raise e, w'')
           end
       end.

Definition get : M world := λ w, (Ok w, w).
Definition print (m : message) : M unit :=
  λ w, (Ok tt, World (fs w) (dirs w) (stdout w ++ [m]) (encodes w)).
Definition set_fs (f : gmap string file → gmap string file) : M unit :=
  λ w, (Ok tt, World (f (fs w)) (dirs w) (stdout w) (encodes w)).
Definition set_dirs (f : gset string → gset string) : M unit :=
  λ w, (Ok tt, World (fs w) (f (dirs w)) (stdout w) (encodes w)).
Definition log_encode (cfg : encoder_cfg) : M unit :=
  λ w, (Ok tt, World (fs w) (dirs w) (stdout w) (encodes w ++ [cfg])).

(** Raise the exception an oracle reports, if any. *)
Definition check (o : option exn) : M unit :=
  match o with
  | Some e => raise e
  | None => ret tt
  end.

Definition lift {A} (r : result A) : M A :=
  match r with
  | Ok a => ret a
  | Raise e => raise e
  end.

(** A collaborator writes its file, then raises if it failed. *)
Definition perform (path : string) (o : written) : M unit :=
  match left_file o with
  | Some f => set_fs (insert path f)
  | None => ret tt
  end ;;
  check (raised o).

(** ** Paths *)

(** [Path(dir) / name], for a directory given in the form pathlib prints
    it: components separated by single ['/'], none of them ['.'], no
    ['/'] at the end.  (pathlib brings other spellings into this form
    first; the program itself only joins onto ['temp'] and onto the
    output directory.) *)
Definition path_join (dir name : string) : string := dir +:+ "/" +:+ name.

(** [str(i)] for a non-negative integer *)
Definition str_of_nat (i : nat) : string :=
  NilEmpty.string_of_uint (Nat.to_uint i).

(** [path.exists()] *)
Definition path_exists (w : world) (path : string) : bool :=
  bool_decide (is_Some (fs w !! path)) || bool_decide (path ∈ dirs w).

(** [path.mkdir(exist_ok=True)] for a path directly under the working
    directory. *)
Definition mkdir_exist_ok (path : string) : M unit :=
  w <- get ;;
  if bool_decide (path ∈ dirs w) then ret tt
  else if bool_decide (is_Some (fs w !! path))
       then raise (OSError "File exists")
       else set_dirs (λ d, {[path]} ∪ d).

(** The part of [path] after [pre], when [path] starts with [pre]. *)
Fixpoint strip_prefix (pre path : string) : option string :=
  match pre, path with
  | EmptyString, _ => Some path
  | String a pre', String b path' =>
      if decide (a = b) then strip_prefix pre' path' else None
  | String _ _, EmptyString => None
  end.

Fixpoint contains_char (c : ascii) (s : string) : bool :=
  match s with
  | EmptyString => false
  | String a s' => bool_decide (a = c) || contains_char c s'
  end.

(** Is [path] somewhere below the directory [dir]? *)
Definition below (dir path : string) : bool :=
  bool_decide (is_Some (strip_prefix (dir +:+ "/") path)).

(** Is [path] an entry of [dir] whose name matches the pattern ['*.*']? *)
Definition matches_star_dot_star (dir path : string) : bool :=
  match strip_prefix (dir +:+ "/") path with
  | Some name => negb (contains_char "/" name) && contains_char "." name
  | None => false
  end.

(** [dir.glob('*.*')] *)
Definition glob_star_dot_star (w : world) (dir : string) : list string :=
  filter (λ p, matches_star_dot_star dir p = true)
         (elements (dom (fs w)) ++ elements (dirs w)).

(** [dir.rmdir()]: only an empty directory can be removed. *)
Definition rmdir (dir : string) : M unit :=
  w <- get ;;
  if bool_decide (dir ∈ dirs w)
  then match filter (λ p, below dir p = true)
                    (elements (dom (fs w)) ++ elements (dirs w)) with
       | [] => set_dirs (λ d, d ∖ {[dir]})
       | _ => raise (OSError "Directory not empty")
       end
  else raise (OSError "No such file or directory").

(** ** The program *)

Definition encodings : list string := ["utf-8"; "utf-8-sig"; "latin1"; "cp1252"].

Definition black : rgb := (0, 0, 0).
Definition dark_green : rgb := (0, 64, 0).

(** [ImageClip(img).set_duration(duration)] *)
Definition image_clip (img : image) (duration : float) : clip :=
  Clip img duration None.

(** [c.set_audio(audio)] *)
Definition set_audio (c : clip) (audio : audio_clip) : clip :=
  Clip (clip_frame c) (clip_duration c) (Some audio).

(** [np.cumsum([0] + durations)[-1]]: the running total of binary64
    additions, from [0] and from left to right. *)
Definition np_cumsum_last (durations : list float) : float :=
  fold_left PrimFloat.add durations 0%float.

(** [np.maximum(a, b)] on two floats: the larger one, a NaN if there is
    one. *)
Definition np_maximum (a b : float) : float :=
  if PrimFloat.is_nan a then a
  else if PrimFloat.is_nan b then b
  else if PrimFloat.ltb a b then b else a.

(** moviepy's [concatenate_videoclips(clips)]: the clips play one after
    the other.  The start times are
    [tt = np.maximum(0, np.cumsum([0] + durations) + padding * arange)]
    with [padding = 0], and the duration of the result is [tt[-1]]; an
    empty list is refused ([max] over the clip sizes). *)
Definition concatenate_videoclips (clips : list clip) : M timeline :=
  match clips with
  | [] => raise (ValueError "max() arg is an empty sequence")
  | _ => ret (Timeline clips
                (np_maximum 0%float
                   (PrimFloat.add (np_cumsum_last (map clip_duration clips))
                                  0%float)))
  end.

Definition primary_cfg : encoder_cfg :=
  EncoderCfg 24 "libx264" "aac" "192k"
             ["-strict"; "-2"; "-ac"; "2"; "-ar"; "44100"].

Definition fallback_cfg : encoder_cfg :=
  EncoderCfg 24 "libx264" "libmp3lame" "192k" ["-ac"; "2"].

Section Program.

Variable E : Env.

(** [open(path, ...)] and the like: the file at [path]. *)
Definition open_file (path : string) : M file :=
  w <- get ;;
  match fs w !! path with
  | Some f => ret f
  | None => raise (OSError "No such file or directory")
  end.

(** The body of the [try] of [read_csv_with_encoding] for one encoding:
    [Some rows] is the [return data[1:]], [None] falls out of the [try]. *)
Definition read_csv_attempt (file_path encoding : string)
  : M (option (list (list string))) :=
  f <- open_file file_path ;;
  print (MsgTrying encoding) ;;
  data <- lift (as_csv f encoding) ;;
  if (1 <? List.length data)%nat
  then (print (MsgCsvRead encoding) ;; ret (Some (tail data)))
  else ret None.

(** [for encoding in encodings: try: ... except UnicodeDecodeError:
    continue], then the final [raise ValueError]. *)
Fixpoint read_csv_loop (file_path : string) (encs : list string)
  : M (list (list string)) :=
  match encs with
  | [] => raise (ValueError "Could not read CSV file with any encoding")
  | encoding :: rest =>
      λ w, match read_csv_attempt file_path encoding w with
           | (Ok (Some rows), w') => (Ok rows, w')
           | (Ok None, w') => read_csv_loop file_path rest w'
           | (Raise UnicodeDecodeError, w') => read_csv_loop file_path rest w'
           | (Raise e, w') => (Raise e, w')
           end
  end.

Definition read_csv_with_encoding (file_path : string)
  : M (list (list string)) :=
  read_csv_loop file_path encodings.

(** [sf.read(path)] *)
Definition sf_read (path : string) : M (Z * Z) :=
  w <- get ;;
  match fs w !! path with
  | Some f => lift (as_soundfile f)
  | None => raise (LibraryError "Error opening file")
  end.

(** [len(data[:int(samplerate)])] *)
Definition sample_frames (frames samplerate : Z) : Z :=
  if 0 <=? samplerate then Z.min frames samplerate
  else Z.max 0 (frames + samplerate).

Definition create_audio_file (text output_path : string) : M bool :=
  w <- get ;;
  check (engine_init E w) ;;
  print (MsgGenerating (String.substring 0 50 text)) ;;
  w <- get ;;
  perform output_path (engine_run E w text output_path) ;;
  try_except
    (read <- sf_read output_path ;;
     let '(frames, samplerate) := read in
     print (MsgAudioCreated output_path) ;;
     (if decide (samplerate = 0) then raise ZeroDivisionError
      else print (MsgSampleRate samplerate frames)) ;;
     print MsgTestingPlayback ;;
     w <- get ;;
     check (sd_play E w (sample_frames frames samplerate) samplerate) ;;
     ret true)
    (λ e, print (MsgErrorTestingAudio e) ;; ret false).

(** [AudioFileClip(path)] *)
Definition AudioFileClip (path : string) : M audio_clip :=
  f <- open_file path ;;
  duration <- lift (as_audioclip f) ;;
  ret (AudioClip path duration).

(** [path.unlink()] *)
Definition unlink (path : string) : M unit :=
  w <- get ;;
  match fs w !! path with
  | Some _ => check (unlink_error E w path) ;; set_fs (delete path)
  | None => raise (OSError "No such file")
  end.

(** [for file in files: if file.exists(): file.unlink()] *)
Fixpoint unlink_existing (files : list string) : M unit :=
  match files with
  | [] => ret tt
  | file :: rest =>
      w <- get ;;
      (if path_exists w file then unlink file else ret tt) ;;
      unlink_existing rest
  end.

Definition create_qa_clip (question answer temp_dir : string)
    (qa_index : nat) : M (list clip) :=
  let q_audio_path :=
    path_join temp_dir ("q_" +:+ str_of_nat qa_index +:+ ".wav") in
  let a_audio_path :=
    path_join temp_dir ("a_" +:+ str_of_nat qa_index +:+ ".wav") in
  q_ok <- create_audio_file question q_audio_path ;;
  failed <- (if negb q_ok then ret true
             else (a_ok <- create_audio_file answer a_audio_path ;;
                   ret (negb a_ok))) ;;
  if (failed : bool)
  then raise (RuntimeError "Failed to create or test audio files")
  else
    try_finally
      (q_audio <- AudioFileClip q_audio_path ;;
       a_audio <- AudioFileClip a_audio_path ;;
       print (MsgClipDurations (ac_duration q_audio) (ac_duration a_audio)) ;;
       let q_image :=
         create_text_image (draw_text E) ("Q: " +:+ question)
                           default_size default_bg white in
       let a_image :=
         create_text_image (draw_text E) ("A: " +:+ answer)
                           default_size dark_green white in
       let q_clip := image_clip q_image (ac_duration q_audio) in
       let q_clip := set_audio q_clip q_audio in
       let a_clip := image_clip a_image (ac_duration a_audio) in
       let a_clip := set_audio a_clip a_audio in
       let pause :=
         image_clip (create_text_image (draw_text E) "" default_size
                                       black white) 0.5%float in
       ret [q_clip; pause; a_clip; pause])
      (try_except
         (unlink_existing [q_audio_path; a_audio_path])
         (λ e, print (MsgWarnDelete e))).

(** The loop [for i, (question, answer) in enumerate(qa_pairs, 1)];
    [n] is [len(qa_pairs)]. *)
Fixpoint process_pairs (n : nat) (temp_path : string) (i : nat)
    (rows : list (list string)) (all_clips : list clip) : M (list clip) :=
  match rows with
  | [] => ret all_clips
  | [question; answer] :: rest =>
      print (MsgProcessing i n) ;;
      clips <- create_qa_clip (Py.strip question) (Py.strip answer)
                              temp_path i ;;
      let all_clips := all_clips ++ clips in
      print (MsgProgress i n) ;;
      process_pairs n temp_path (S i) rest all_clips
  | _ :: _ => raise (ValueError "wrong number of values to unpack")
  end.

(** Source lines 130-139 of [create_video]: all the clips, in order,
    concatenated. *)
Definition build_timeline (qa_pairs : list (list string))
    (temp_path : string) : M timeline :=
  all_clips <- process_pairs (List.length qa_pairs) temp_path 1
                             qa_pairs [] ;;
  print MsgCombining ;;
  concatenate_videoclips all_clips.

(** [final_video.write_videofile(path, **cfg)] *)
Definition run_write_videofile (final_video : timeline) (path : string)
    (cfg : encoder_cfg) : M unit :=
  log_encode cfg ;;
  w <- get ;;
  perform path (write_videofile E w final_video path cfg).

(** [for file in files: try: file.unlink() except: pass] *)
Fixpoint unlink_each (files : list string) : M unit :=
  match files with
  | [] => ret tt
  | file :: rest =>
      try_except (unlink file) (λ _, ret tt) ;;
      unlink_each rest
  end.

(** The [finally] block of [create_video]. *)
Definition cleanup_temp (temp_path : string) : M unit :=
  w <- get ;;
  if path_exists w temp_path
  then try_except
         (w <- get ;;
          unlink_each (glob_star_dot_star w temp_path) ;;
          rmdir temp_path)
         (λ e, print (MsgWarnCleanup e))
  else ret tt.

(** The two encoding attempts, source lines 145-170. *)
Definition encode (final_video : timeline) (output_file : string) : M unit :=
  try_except
    (run_write_videofile final_video output_file primary_cfg)
    (λ first_error,
       print (MsgFirstAttemptFailed first_error) ;;
       print MsgTryingAlternate ;;
       run_write_videofile final_video output_file fallback_cfg).

Definition create_video (qa_pairs : list (list string)) (output_dir : string)
  : M string :=
  let output_path := output_dir in
  mkdir_exist_ok output_path ;;
  let temp_path := "temp" in
  mkdir_exist_ok temp_path ;;
  try_finally
    (final_video <- build_timeline qa_pairs temp_path ;;
     let output_file := path_join output_path "qa_video.mp4" in
     print MsgWriting ;;
     encode final_video output_file ;;
     open_file output_file ;;
     print (MsgFileSize output_file) ;;
     ret output_file)
    (cleanup_temp temp_path).

(** The final self-test of [main]: [VideoFileClip(output_path)]. *)
Definition test_video (output_path : string) : M unit :=
  f <- open_file output_path ;;
  video <- lift (as_videoclip f) ;;
  print (MsgVideoLoaded (fst video)) ;;
  print (MsgAudioTrack (bool_decide (is_Some (snd video)))) ;;
  match snd video with
  | Some d => print (MsgAudioDuration d)
  | None => ret tt
  end.

(** [main] from its [try] statement on, for the arguments
    [args.csv = csv] that [parser.parse_args()] returned.  (When argparse
    does not accept the command line it ends the program itself, before
    the [try]; that exit is not part of this function.)  The traceback
    printed after ["Error: ..."] is part of [MsgError]. *)
Definition main (csv : string) : M unit :=
  try_except
    (print MsgTestingAudioSystem ;;
     w <- get ;;
     check (sd_play E w 44100 44100) ;;
     print MsgAudioSystemOk ;;
     w <- get ;;
     if negb (path_exists w csv)
     then print (MsgCsvNotFound csv)
     else
       (print MsgReadingCsv ;;
        qa_pairs <- read_csv_with_encoding csv ;;
        match qa_pairs with
        | [] => print MsgNoPairs
        | _ =>
            output_path <- create_video qa_pairs "output" ;;
            print (MsgVideoCreated output_path) ;;
            print MsgTestingVideo ;;
            try_except (test_video output_path)
                       (λ e, print (MsgErrorTestingVideo e))
        end))
    (λ e, print (MsgError e)).

End Program.

(** ** Auxiliary definitions for the proofs *)

(** Does the joined line overflow the width limit?  The test of source
    line 26. *)
Definition exceeds (mw : Z) (line : list string) : bool :=
  estimated_width (Py.join line) >? mw.

(** The wrap loop on lists of words instead of joined lines. *)
Definition block_step (mw : Z) (st : list (list string) * list string)
    (word : string) : list (list string) * list string :=
  let '(blocks, cur) := st in
  if exceeds mw (cur ++ [word]) then (blocks ++ [cur], [word])
  else (blocks, cur ++ [word]).

Definition block_finish (st : list (list string) * list string)
  : list (list string) :=
  match snd st with
  | [] => fst st
  | _ => fst st ++ [snd st]
  end.

Definition wrap_blocks (mw : Z) (words : list string) : list (list string) :=
  block_finish (fold_left (block_step mw) words ([], [])).

(** A word as [split] produces them: not empty, no whitespace. *)
Fixpoint no_space (s : string) : bool :=
  match s with
  | EmptyString => true
  | String c s' => negb (Py.isspace c) && no_space s'
  end.

Definition is_word (s : string) : Prop := s ≠ "" ∧ no_space s = true.

(** The invariant of the loop after the words [pre]: nothing is lost,
    every line of two or more words fits, and a line was closed only
    because the next word did not fit on it. *)
Definition wrap_inv (mw : Z) (pre : list string)
    (st : list (list string) * list string) : Prop :=
  concat (fst st) ++ snd st = pre
  ∧ (snd st = [] → fst st = [])
  ∧ (∀ b, b ∈ fst st ++ [snd st] → (2 ≤ List.length b)%nat →
          exceeds mw b = false)
  ∧ (∀ i b w r, (fst st ++ [snd st]) !! i = Some b →
          (fst st ++ [snd st]) !! S i = Some (w :: r) →
          exceeds mw (b ++ [w]) = true).

(** The [draw.text] calls of [create_text_image], applied to a list of
    placed lines. *)
Definition draw_placed (draw_text : image → Z * Z → string → rgb → Z → image)
    (text_color : rgb) (img : image) (placed : list (Z * string)) : image :=
  fold_left
    (λ im p, draw_text im (margin, fst p) (snd p) text_color font_size)
    placed img.

(** The world after some more [print] calls. *)
Definition printed (w : world) (msgs : list message) : world :=
  World (fs w) (dirs w) (stdout w ++ msgs) (encodes w).

(** An attempt of [read_csv_with_encoding] that goes on to the next
    encoding: the file does not decode, or has at most the header row. *)
Definition falls_through (f : file) (encoding : string) : Prop :=
  as_csv f encoding = Raise UnicodeDecodeError
  ∨ ∃ data, as_csv f encoding = Ok data ∧ (List.length data ≤ 1)%nat.

(** The world after a collaborator wrote (or did not write) its file. *)
Definition wrote (w : world) (path : string) (o : written) : world :=
  match left_file o with
  | Some f => World (<[path:=f]> (fs w)) (dirs w) (stdout w) (encodes w)
  | None => w
  end.

(** The world after one more [write_videofile] call was started. *)
Definition logged (w : world) (cfg : encoder_cfg) : world :=
  World (fs w) (dirs w) (stdout w) (encodes w ++ [cfg]).

(** The world in which [create_audio_file] calls the engine, and the world
    the engine leaves. *)
Definition before_engine (w : world) (text : string) : world :=
  printed w [MsgGenerating (String.substring 0 50 text)].

Definition after_engine (E : Env) (text path : string) (w : world) : world :=
  wrote (before_engine w text) path
        (engine_run E (before_engine w text) text path).

(** The world in which [create_audio_file] plays the sample. *)
Definition before_playback (E : Env) (text path : string) (w : world)
    (frames samplerate : Z) : world :=
  printed (after_engine E text path w)
          [MsgAudioCreated path; MsgSampleRate samplerate frames;
           MsgTestingPlayback].

(** The two temporary files of pair [qa_index]. *)
Definition q_path (temp_dir : string) (qa_index : nat) : string :=
  path_join temp_dir ("q_" +:+ str_of_nat qa_index +:+ ".wav").
Definition a_path (temp_dir : string) (qa_index : nat) : string :=
  path_join temp_dir ("a_" +:+ str_of_nat qa_index +:+ ".wav").

(** The four clips [create_qa_clip] returns, given the two audio clips. *)
Definition qa_segments
    (dt : image → Z * Z → string → rgb → Z → image)
    (question answer : string) (q_audio a_audio : audio_clip) : list clip :=
  let pause :=
    Clip (create_text_image dt "" default_size black white) 0.5%float None in
  [Clip (create_text_image dt ("Q: " +:+ question) default_size default_bg
                           white)
        (ac_duration q_audio) (Some q_audio);
   pause;
   Clip (create_text_image dt ("A: " +:+ answer) default_size dark_green white)
        (ac_duration a_audio) (Some a_audio);
   pause].

(** The [try] block and the [finally] block of [create_qa_clip]. *)
Definition compose_clips (E : Env) (question answer temp_dir : string)
    (qa_index : nat) : M (list clip) :=
  q_audio <- AudioFileClip (q_path temp_dir qa_index) ;;
  a_audio <- AudioFileClip (a_path temp_dir qa_index) ;;
  print (MsgClipDurations (ac_duration q_audio) (ac_duration a_audio)) ;;
  ret (qa_segments (draw_text E) question answer q_audio a_audio).

Definition compose_cleanup (E : Env) (temp_dir : string) (qa_index : nat)
  : M unit :=
  try_except
    (unlink_existing E [q_path temp_dir qa_index; a_path temp_dir qa_index])
    (λ e, print (MsgWarnDelete e)).

(** The clips [cs] are what [create_qa_clip] returned for the row [ir.2],
    processed as pair number [ir.1]. *)
Definition pair_segments (E : Env) (temp_path : string)
    (ir : nat * list string) (cs : list clip) : Prop :=
  ∃ question answer q_audio a_audio wk wk',
    ir.2 = [question; answer]
    ∧ create_qa_clip E (Py.strip question) (Py.strip answer) temp_path ir.1 wk
      = (Ok cs, wk')
    ∧ cs = qa_segments (draw_text E) (Py.strip question) (Py.strip answer)
             q_audio a_audio
    ∧ ac_filename q_audio = q_path temp_path ir.1
    ∧ ac_filename a_audio = a_path temp_path ir.1.

(** The two [write_videofile] calls of [encode], with the worlds they are
    made in. *)
Definition first_attempt (E : Env) (tl : timeline) (path : string)
    (w : world) : written :=
  write_videofile E (logged w primary_cfg) tl path primary_cfg.

Definition before_second (E : Env) (tl : timeline) (path : string)
    (w : world) (first_error : exn) : world :=
  logged (printed (wrote (logged w primary_cfg) path
                         (first_attempt E tl path w))
                  [MsgFirstAttemptFailed first_error; MsgTryingAlternate])
         fallback_cfg.

Definition second_attempt (E : Env) (tl : timeline) (path : string)
    (w : world) (first_error : exn) : written :=
  write_videofile E (before_second E tl path w first_error) tl path
                  fallback_cfg.

(** A computation that starts no encoding. *)
Definition keeps_encodes {A} (m : M A) : Prop :=
  ∀ w, encodes (snd (m w)) = encodes w.

(** A computation that does not print the message [m0]. *)
Definition never_prints {A} (m0 : message) (m : M A) : Prop :=
  ∀ w, ∃ msgs, stdout (snd (m w)) = stdout w ++ msgs ∧ m0 ∉ msgs.

(** ** A concrete world for the examples *)

(** The exact value of a finite binary64 number, as a rational ([0] for
    the infinities and NaN). *)
Definition float_to_Q (x : float) : Q :=
  match FloatOps.Prim2SF x with
  | SpecFloat.S754_finite s m e =>
    ((if s then -1 else 1) * inject_Z (Zpos m) * Qpower 2 e)%Q
  | _ => 0%Q
  end.

Module Demo.

(** A rasteriser with block glyphs: each character is a filled box
    [size / 2] pixels wide and [size] pixels high. *)
Definition block_text (img : image) (xy : Z * Z) (s : string) (fill : rgb)
    (size : Z) : image :=
  imap (λ r row,
          imap (λ c px,
                  if (snd xy <=? Z.of_nat r) && (Z.of_nat r <? snd xy + size)
                     && (fst xy <=? Z.of_nat c)
                     && (Z.of_nat c <? fst xy + Py.len s * (size / 2))
                  then fill else px)
               row)
       img.

(** A word of fifty characters: wider than a 1280 pixel frame allows. *)
Definition long_word : string :=
  "aaaaaaaaaaaaaaaaaaaaaaaaaaaaaaaaaaaaaaaaaaaaaaaaaa".

Definition not_audio : result (Z * Z) := Raise (LibraryError "Format not recognised").
Definition not_a_clip : result float := Raise (OSError "MoviePy error: failed to read the duration").
Definition not_a_video : result (float * option float) :=
  Raise (OSError "MoviePy error: failed to read the first frame").
Definition not_a_table : string → result (list (list string)) :=
  λ _, Raise UnicodeDecodeError.

(** A table saved as Windows-1252: it does not decode as UTF-8. *)
Definition cp1252_csv : file :=
  File (λ enc, if decide (enc = "utf-8" ∨ enc = "utf-8-sig")
               then Raise UnicodeDecodeError
               else Ok [["question"; "answer"];
                        ["What is 2+2?"; "4"];
                        ["Capital of France?"; "Paris"]])
       not_audio not_a_clip not_a_video.

(** A table with the header row only. *)
Definition header_only_csv : file :=
  File (λ _, Ok [["question"; "answer"]]) not_audio not_a_clip not_a_video.

(** A WAV file of [frames] frames at [samplerate] Hz.  [duration] is its
    length in seconds as moviepy takes it from the decoder's report, which
    counts in hundredths of a second; a file without any frame cannot be
    opened as a clip. *)
Definition wav (frames samplerate : Z) (duration : float) : file :=
  File not_a_table (Ok (frames, samplerate))
       (if decide (frames = 0) then not_a_clip else Ok duration)
       not_a_video.

(** A file no decoder accepts. *)
Definition garbage : file :=
  File not_a_table not_audio not_a_clip not_a_video.

Definition mp4 (tl : timeline) : file :=
  File not_a_table not_audio not_a_clip
       (Ok (tl_duration tl, Some (tl_duration tl))).

(** An engine whose recordings of the text [text] have [fst (voice text)]
    frames at 22050 Hz and last [snd (voice text)] seconds. *)
Definition speak_as (voice : string → Z * float)
    (w : world) (text path : string) : written :=
  Written (Some (wav (fst (voice text)) 22050 (snd (voice text)))) None.

(** Two seconds for every text. *)
Definition two_seconds (text : string) : Z * float := (44100, 2%float).

(** An engine that speaks two seconds for every text. *)
Definition speak : world → string → string → written :=
  speak_as two_seconds.

(** A fifth of a second for ["Hi?"], a tenth of a second otherwise. *)
Definition short_voice (text : string) : Z * float :=
  if decide (text = "Hi?") then (4410, 0x1.999999999999ap-3%float)
  else (2205, 0x1.999999999999ap-4%float).

(** An engine that writes an undecodable file for the text ["4"]. *)
Definition speak_garbled (w : world) (text path : string) : written :=
  if decide (text = "4") then Written (Some garbage) None
  else speak w text path.

(** An engine that writes a valid WAV file without any frame. *)
Definition speak_nothing (w : world) (text path : string) : written :=
  Written (Some (wav 0 22050 0%float)) None.

Definition encoder_ok (w : world) (tl : timeline) (path : string)
    (cfg : encoder_cfg) : written :=
  Written (Some (mp4 tl)) None.

(** An encoder without AAC support. *)
Definition encoder_no_aac (w : world) (tl : timeline) (path : string)
    (cfg : encoder_cfg) : written :=
  if decide (audio_codec cfg = "aac")
  then Written None (Some (OSError "Unknown encoder 'aac'"))
  else Written (Some (mp4 tl)) None.

(** An encoder that fails whatever the configuration. *)
Definition encoder_broken (w : world) (tl : timeline) (path : string)
    (cfg : encoder_cfg) : written :=
  Written None (Some (OSError "No space left on device")).

Definition make_env
    (engine : world → string → string → written)
    (encoder : world → timeline → string → encoder_cfg → written) : Env :=
  {| draw_text := block_text;
     engine_init := λ _, None;
     engine_run := engine;
     sd_play := λ _ _ _, None;
     unlink_error := λ _ _, None;
     write_videofile := encoder |}.

Definition env : Env := make_env speak encoder_ok.

Definition empty_world : world := World ∅ ∅ [] [].

Definition world_with (path : string) (f : file) : world :=
  World {[path := f]} ∅ [] [].

End Demo.

(** A computation that creates and removes no directory. *)
Definition keeps_dirs {A} (m : M A) : Prop :=
  ∀ w, dirs (snd (m w)) = dirs w.

(** The body of the [try] of [create_video], source lines 130-173. *)
Definition video_body (E : Env) (qa_pairs : list (list string))
    (output_dir : string) : M string :=
  final_video <- build_timeline E qa_pairs "temp" ;;
  print MsgWriting ;;
  encode E final_video (path_join output_dir "qa_video.mp4") ;;
  open_file (path_join output_dir "qa_video.mp4") ;;
  print (MsgFileSize (path_join output_dir "qa_video.mp4")) ;;
  ret (path_join output_dir "qa_video.mp4").

(** The directory [path] exists or can be created by [mkdir]. *)
Definition can_mkdir (w : world) (path : string) : Prop :=
  path ∈ dirs w ∨ fs w !! path = None.

(** ** More example worlds *)

Module Extra.

(** A table the csv module refuses under every encoding. *)
Definition nul_csv : file :=
  File (λ _, Raise (LibraryError "line contains NUL"))
       Demo.not_audio Demo.not_a_clip Demo.not_a_video.

(** A machine without a usable audio device. *)
Definition env_no_device : Env :=
  {| draw_text := Demo.block_text;
     engine_init := λ _, None;
     engine_run := Demo.speak;
     sd_play := λ _ _ _, Some (LibraryError "Error querying device -1");
     unlink_error := λ _ _, None;
     write_videofile := Demo.encoder_ok |}.

(** A system on which an open file cannot be deleted. *)
Definition env_locked : Env :=
  {| draw_text := Demo.block_text;
     engine_init := λ _, None;
     engine_run := Demo.speak;
     sd_play := λ _ _ _, None;
     unlink_error := λ _ _, Some (OSError "The process cannot access the file");
     write_videofile := Demo.encoder_ok |}.

(** An engine that cannot be initialised. *)
Definition env_no_engine : Env :=
  {| draw_text := Demo.block_text;
     engine_init := λ _, Some (LibraryError "No module named 'espeak'");
     engine_run := Demo.speak;
     sd_play := λ _ _ _, None;
     unlink_error := λ _ _, None;
     write_videofile := Demo.encoder_ok |}.

(** A file soundfile decodes and moviepy cannot open. *)
Definition half_valid : file :=
  File Demo.not_a_table (Ok (22050, 22050)) Demo.not_a_clip Demo.not_a_video.

(** An engine that writes such files, on a system where open files cannot
    be deleted. *)
Definition env_half_valid : Env :=
  {| draw_text := Demo.block_text;
     engine_init := λ _, None;
     engine_run := λ _ _ _, Written (Some half_valid) None;
     sd_play := λ _ _ _, None;
     unlink_error := λ _ _, Some (OSError "The process cannot access the file");
     write_videofile := Demo.encoder_ok |}.

End Extra.

(** * Theorems *)

(** ** Python string helpers *)

Lemma join_nil : Py.join [] = "".
Proof. reflexivity. Qed.

Lemma join_singleton w : Py.join [w] = w.
Proof. reflexivity. Qed.

Lemma join_cons x y l : Py.join (x :: y :: l) = x +:+ " " +:+ Py.join (y :: l).
Proof. reflexivity. Qed.

Lemma string_app_cons x (a b : string) : String x a +:+ b = String x (a +:+ b).
Proof. reflexivity. Qed.

Lemma string_app_nil_l (b : string) : "" +:+ b = b.
Proof. reflexivity. Qed.

Lemma string_app_assoc (a b c : string) : (a +:+ b) +:+ c = a +:+ (b +:+ c).
Proof.
  induction a as [|x a IH]; [done |].
  by rewrite !string_app_cons, IH.
Qed.

Lemma string_app_nil_r (a : string) : a +:+ "" = a.
Proof.
  induction a as [|x a IH]; [done |].
  by rewrite string_app_cons, IH.
Qed.

Lemma string_length_app (a b : string) :
  String.length (a +:+ b) = (String.length a + String.length b)%nat.
Proof.
  induction a as [|x a IH]; [done |].
  rewrite string_app_cons. simpl. by rewrite IH.
Qed.

Lemma join_snoc l w :
  l ≠ [] → Py.join (l ++ [w]) = Py.join l +:+ " " +:+ w.
Proof.
  induction l as [|x l IH]; [done | intros _].
  destruct l as [|y l]; [reflexivity |].
  change ((x :: y :: l) ++ [w]) with (x :: (y :: (l ++ [w]))).
  rewrite !join_cons. change (y :: l ++ [w]) with ((y :: l) ++ [w]).
  rewrite IH by done. by rewrite !string_app_assoc.
Qed.

(** Appending a word never shortens the joined line below the word. *)
Lemma join_snoc_length l w :
  (String.length w ≤ String.length (Py.join (l ++ [w])))%nat.
Proof.
  destruct l as [|x l]; [by rewrite app_nil_l, join_singleton |].
  rewrite join_snoc by done. rewrite !string_length_app.
  lia.
Qed.

Lemma estimated_width_mono a b :
  (String.length a ≤ String.length b)%nat →
  estimated_width a ≤ estimated_width b.
Proof.
  intros H. unfold estimated_width, Py.len, font_size.
  change (48 / 2) with 24. lia.
Qed.

Lemma exceeds_word mw l w :
  estimated_width w > mw → exceeds mw (l ++ [w]) = true.
Proof.
  intros H. unfold exceeds.
  pose proof (estimated_width_mono _ _ (join_snoc_length l w)).
  apply Z.gtb_lt. lia.
Qed.

Lemma exceeds_cons mw w l :
  estimated_width w > mw → exceeds mw (w :: l) = true.
Proof.
  intros H. unfold exceeds. apply Z.gtb_lt.
  assert (String.length w ≤ String.length (Py.join (w :: l)))%nat.
  { destruct l; [by rewrite join_singleton |].
    rewrite join_cons, string_length_app. lia. }
  pose proof (estimated_width_mono _ _ H0). lia.
Qed.

Lemma no_space_app a b :
  no_space (a +:+ b) = (no_space a && no_space b).
Proof.
  induction a as [|x a IH]; [done |].
  rewrite string_app_cons. simpl. rewrite IH. by destruct (Py.isspace x).
Qed.

Lemma split_from_words cur s :
  no_space cur = true → Forall is_word (Py.split_from cur s).
Proof.
  revert cur. induction s as [|c s IH]; intros cur Hcur; simpl.
  - case_decide; [constructor |]. by repeat constructor.
  - destruct (Py.isspace c) eqn:Hc.
    + case_decide; [by apply IH |].
      constructor; [done | by apply IH].
    + apply IH. rewrite no_space_app, Hcur. simpl. by rewrite Hc.
Qed.

Lemma split_words text : Forall is_word (Py.split text).
Proof. by apply split_from_words. Qed.

Lemma split_from_app cur w s :
  no_space w = true →
  Py.split_from cur (w +:+ s) = Py.split_from (cur +:+ w) s.
Proof.
  revert cur. induction w as [|c w IH]; intros cur Hw.
  - by rewrite string_app_nil_l, string_app_nil_r.
  - simpl in Hw. apply andb_true_iff in Hw as [Hc Hw].
    apply negb_true_iff in Hc.
    rewrite string_app_cons. simpl. rewrite Hc, IH by done.
    by rewrite string_app_assoc.
Qed.

Lemma split_from_word w : is_word w → Py.split_from "" w = [w].
Proof.
  intros [Hne Hw]. rewrite <- (string_app_nil_r w) at 1.
  rewrite split_from_app by done. rewrite string_app_nil_l. simpl.
  by case_decide.
Qed.

(** Splitting a line made of words gives the words back. *)
Lemma split_join ws : Forall is_word ws → Py.split (Py.join ws) = ws.
Proof.
  unfold Py.split.
  induction ws as [|x ws IH]; intros Hws; [done |].
  apply Forall_cons in Hws as [Hx Hws].
  destruct ws as [|y ws]; [by apply split_from_word |].
  rewrite join_cons. destruct Hx as [Hne Hx].
  rewrite split_from_app, string_app_nil_l by done.
  change (" " +:+ Py.join (y :: ws)) with (String " " (Py.join (y :: ws))).
  simpl Py.split_from. case_decide; [done |]. by rewrite IH.
Qed.

Lemma Forall_concat_inv {A} (P : A → Prop) (ls : list (list A)) :
  Forall P (concat ls) → Forall (Forall P) ls.
Proof.
  induction ls as [|l ls IH]; simpl; intros H; [constructor |].
  apply Forall_app in H as [??]. constructor; auto.
Qed.

Lemma concat_split_join (blocks : list (list string)) :
  Forall is_word (concat blocks) →
  concat (map Py.split (map Py.join blocks)) = concat blocks.
Proof.
  intros H%Forall_concat_inv.
  induction H as [|b bs Hb _ IH]; [done |].
  simpl. by rewrite split_join, IH.
Qed.

(** ** Frame Renderer: the word-wrap loop *)

Lemma wrap_step_spec mw lines cur w :
  wrap_step mw (lines, cur) w =
  if exceeds mw (cur ++ [w]) then (lines ++ [Py.join cur], [w])
  else (lines, cur ++ [w]).
Proof. unfold wrap_step, exceeds. by rewrite removelast_last. Qed.

Lemma wrap_fold_blocks mw words B cur :
  fold_left (wrap_step mw) words (map Py.join B, cur) =
  (map Py.join (fst (fold_left (block_step mw) words (B, cur))),
   snd (fold_left (block_step mw) words (B, cur))).
Proof.
  revert B cur. induction words as [|w words IH]; intros B cur; [done |].
  cbn [fold_left]. rewrite wrap_step_spec. unfold block_step at 2 4.
  destruct (exceeds mw (cur ++ [w])).
  - rewrite <- IH. by rewrite map_app.
  - by rewrite <- IH.
Qed.

Lemma wrap_lines_blocks text size :
  wrap_lines text size =
  map Py.join (wrap_blocks (max_width size) (Py.split text)).
Proof.
  unfold wrap_lines, wrap_blocks.
  change (@nil string, @nil string)
    with (map Py.join (@nil (list string)), @nil string).
  rewrite wrap_fold_blocks.
  destruct (fold_left _ _ _) as [B cur]. unfold wrap_finish, block_finish.
  simpl. destruct cur; [done |]. by rewrite map_app.
Qed.

Lemma wrap_inv_init mw : wrap_inv mw [] ([], []).
Proof.
  unfold wrap_inv; simpl. split_and!; [done | done | |].
  - intros b ->%list_elem_of_singleton Hlen. simpl in Hlen. lia.
  - intros [|i] b w r; simpl; done.
Qed.

Lemma wrap_inv_step mw pre st w :
  wrap_inv mw pre st → wrap_inv mw (pre ++ [w]) (block_step mw st w).
Proof.
  destruct st as [B cur]. intros (Hcat & Hnil & Hfit & Hadj). simpl in *.
  unfold wrap_inv, block_step.
  destruct (exceeds mw (cur ++ [w])) eqn:Hex; simpl.
  - split_and!.
    + rewrite concat_app. simpl. rewrite app_nil_r. by rewrite Hcat.
    + done.
    + intros b Hb Hlen. apply elem_of_app in Hb as [Hb | Hb].
      * by apply Hfit.
      * apply list_elem_of_singleton in Hb as ->. simpl in Hlen. lia.
    + intros i b w' r Hi HSi.
      destruct (decide (S i < List.length (B ++ [cur]))%nat) as [Hlt | Hge].
      * rewrite lookup_app_l in Hi by lia.
        rewrite lookup_app_l in HSi by done. eauto.
      * assert (S i = List.length (B ++ [cur])) as Hlen.
        { apply lookup_lt_Some in HSi. rewrite length_app in HSi.
          simpl in HSi. lia. }
        rewrite lookup_app_r in HSi by lia.
        rewrite Hlen, Nat.sub_diag in HSi. simpl in HSi.
        injection HSi as <- <-.
        rewrite lookup_app_l in Hi by lia.
        rewrite length_app in Hlen. simpl in Hlen.
        rewrite lookup_app_r in Hi by lia.
        replace (i - List.length B)%nat with 0%nat in Hi by lia.
        simpl in Hi. by injection Hi as <-.
  - split_and!.
    + by rewrite app_assoc, Hcat.
    + by intros ?%app_eq_nil%proj2.
    + intros b Hb Hlen. apply elem_of_app in Hb as [Hb | Hb].
      * apply Hfit; [| done]. apply elem_of_app. by left.
      * by apply list_elem_of_singleton in Hb as ->.
    + intros i b w' r Hi HSi.
      destruct (decide (S i < List.length B)%nat) as [Hlt | Hge].
      * rewrite lookup_app_l in Hi by lia.
        rewrite lookup_app_l in HSi by done.
        apply (Hadj i b w' r); by rewrite lookup_app_l by lia.
      * assert (S i = List.length B) as Hlen.
        { apply lookup_lt_Some in HSi. rewrite length_app in HSi.
          simpl in HSi. lia. }
        destruct cur as [|c cur]; [rewrite Hnil in Hlen by done; done |].
        rewrite lookup_app_r in HSi by lia.
        rewrite Hlen, Nat.sub_diag in HSi. simpl in HSi.
        injection HSi as <- <-.
        rewrite lookup_app_l in Hi by lia.
        apply (Hadj i b c cur).
        -- by rewrite lookup_app_l by lia.
        -- rewrite lookup_app_r by lia. by rewrite Hlen, Nat.sub_diag.
Qed.

Lemma wrap_inv_fold mw ws pre st :
  wrap_inv mw pre st →
  wrap_inv mw (pre ++ ws) (fold_left (block_step mw) ws st).
Proof.
  revert pre st. induction ws as [|w ws IH]; intros pre st H; simpl.
  - by rewrite app_nil_r.
  - replace (pre ++ w :: ws) with ((pre ++ [w]) ++ ws)
      by (by rewrite <- app_assoc).
    apply IH. by apply wrap_inv_step.
Qed.

Lemma block_finish_cases B cur :
  (cur = [] ∧ block_finish (B, cur) = B)
  ∨ (cur ≠ [] ∧ block_finish (B, cur) = B ++ [cur]).
Proof. destruct cur; [by left | by right]. Qed.

(** From any state, the lines still to come hold exactly the pending
    words, in order. *)
Lemma blocks_from mw ws B cur :
  ∃ b2, block_finish (fold_left (block_step mw) ws (B, cur)) = B ++ b2
        ∧ concat b2 = cur ++ ws.
Proof.
  revert B cur. induction ws as [|w ws IH]; intros B cur.
  - simpl. destruct (block_finish_cases B cur) as [[-> ->] | [_ ->]].
    + exists []. by rewrite app_nil_r.
    + exists [cur]. simpl. by rewrite !app_nil_r.
  - cbn [fold_left]. unfold block_step at 2.
    destruct (exceeds mw (cur ++ [w])).
    + destruct (IH (B ++ [cur]) [w]) as (b2 & -> & Hb2).
      exists (cur :: b2). split; [by rewrite <- app_assoc |].
      simpl. by rewrite Hb2.
    + destruct (IH B (cur ++ [w])) as (b2 & -> & Hb2).
      exists b2. split; [done |]. by rewrite Hb2, <- app_assoc.
Qed.

(** A word wider than the limit is alone on its line, wherever it is. *)
Lemma overlong_alone mw pre w post :
  estimated_width w > mw →
  ∃ b1 b2, wrap_blocks mw (pre ++ w :: post) = b1 ++ [w] :: b2
           ∧ concat b1 = pre ∧ concat b2 = post.
Proof.
  intros Hw. unfold wrap_blocks. rewrite fold_left_app.
  pose proof (wrap_inv_fold mw pre [] _ (wrap_inv_init mw)) as (Hcat & _).
  destruct (fold_left (block_step mw) pre ([], [])) as [B cur].
  simpl in Hcat. cbn [fold_left]. unfold block_step at 2.
  rewrite exceeds_word by done.
  destruct post as [|w2 post].
  - exists (B ++ [cur]), []. simpl. split_and!; [done | | done].
    rewrite concat_app. simpl. by rewrite app_nil_r.
  - cbn [fold_left]. unfold block_step at 2.
    change ([w] ++ [w2]) with (w :: [w2]). rewrite exceeds_cons by done.
    destruct (blocks_from mw post ((B ++ [cur]) ++ [[w]]) [w2])
      as (b2 & -> & Hb2).
    exists (B ++ [cur]), b2. split_and!; [| | done].
    + by rewrite <- !app_assoc.
    + rewrite concat_app. simpl. by rewrite app_nil_r.
Qed.

(** What the finished loop guarantees about its lines. *)
Lemma wrap_blocks_spec mw words :
  concat (wrap_blocks mw words) = words
  ∧ (∀ b, b ∈ wrap_blocks mw words → (2 ≤ List.length b)%nat →
          exceeds mw b = false)
  ∧ (∀ i b w r, wrap_blocks mw words !! i = Some b →
          wrap_blocks mw words !! S i = Some (w :: r) →
          exceeds mw (b ++ [w]) = true).
Proof.
  unfold wrap_blocks.
  pose proof (wrap_inv_fold mw words [] _ (wrap_inv_init mw))
    as (Hcat & Hnil & Hfit & Hadj).
  destruct (fold_left (block_step mw) words ([], [])) as [B cur].
  simpl in *.
  destruct (block_finish_cases B cur) as [[-> ->] | [_ ->]].
  - rewrite Hnil by done. rewrite Hnil in Hcat by done.
    split_and!; [done | by intros b ?%elem_of_nil | by intros [|i] b w r].
  - split_and!; [| done | done].
    rewrite concat_app. simpl. by rewrite app_nil_r.
Qed.

(** C7: the word-wrap of [create_text_image] packs words greedily with the
    estimate [len(line) * (font_size / 2)] against [size[0] - 2 * margin].
    When the line with the new word exceeds the limit, the line is closed
    without that word and the word starts the next line.  The lines are
    consecutive runs of the words of the text, so no word is split, lost
    or reordered; a line of two or more words fits; a line is closed only
    because the first word of the next line did not fit on it; and a word
    that exceeds the limit by itself is alone on its line. *)
Theorem wrap_lines_greedy (text : string) (size : nat * nat) :
  let mw := max_width size in
  (∀ lines cur w,
     wrap_step mw (lines, cur) w =
     if estimated_width (Py.join (cur ++ [w])) >? Z.of_nat (fst size) - 2 * 60
     then (lines ++ [Py.join cur], [w])
     else (lines, cur ++ [w]))
  ∧ (∀ s, estimated_width s = Z.of_nat (String.length s) * 24)
  ∧ ∃ blocks : list (list string),
      wrap_lines text size = map Py.join blocks
      ∧ concat blocks = Py.split text
      ∧ concat (map Py.split (wrap_lines text size)) = Py.split text
      ∧ (∀ b, b ∈ blocks → (2 ≤ List.length b)%nat →
              estimated_width (Py.join b) ≤ mw)
      ∧ (∀ i b w r, blocks !! i = Some b → blocks !! S i = Some (w :: r) →
              estimated_width (Py.join (b ++ [w])) > mw)
      ∧ (∀ pre w post, Py.split text = pre ++ w :: post →
              estimated_width w > mw →
              ∃ b1 b2, blocks = b1 ++ [w] :: b2
                       ∧ concat b1 = pre ∧ concat b2 = post).
Proof.
  intros mw. split_and!.
  - intros lines cur w. by rewrite wrap_step_spec.
  - done.
  - destruct (wrap_blocks_spec mw (Py.split text)) as (Hcat & Hfit & Hadj).
    exists (wrap_blocks mw (Py.split text)). split_and!.
    + apply wrap_lines_blocks.
    + done.
    + rewrite wrap_lines_blocks. rewrite concat_split_join; [done |].
      fold mw. rewrite Hcat. apply split_words.
    + intros b Hb Hlen. specialize (Hfit b Hb Hlen).
      unfold exceeds in Hfit. rewrite Z.gtb_ltb in Hfit.
      by apply Z.ltb_ge in Hfit.
    + intros i b w r Hi HSi. specialize (Hadj i b w r Hi HSi).
      unfold exceeds in Hadj. apply Z.gtb_lt in Hadj. by apply Z.lt_gt.
    + intros pre w post Hsplit Hw. rewrite Hsplit.
      by apply overlong_alone.
Qed.

Example wrap_short_text :
  wrap_lines "What is the capital of France and why is it such a famous city today?"
             default_size =
  ["What is the capital of France and why is it such";
   "a famous city today?"].
Proof. reflexivity. Qed.

Example wrap_narrow_frame :
  wrap_lines "the quick brown  fox jumps" (240%nat, 100%nat) =
  ["the"; "quick"; "brown"; "fox"; "jumps"].
Proof. reflexivity. Qed.

Example wrap_overlong_first :
  text_layout "abcdefgh ij k" (240%nat, 100%nat) =
  [(60, ""); (132, "abcdefgh"); (204, "ij k")].
Proof. reflexivity. Qed.

Example wrap_overlong_middle :
  wrap_lines "ij abcdefgh k" (240%nat, 100%nat) = ["ij"; "abcdefgh"; "k"].
Proof. reflexivity. Qed.

(** ** Frame Renderer: layout and frame *)

Lemma layout_from_shift y d lines :
  layout_from (y + d) lines =
  map (λ p, (fst p + d, snd p)) (layout_from y lines).
Proof.
  revert y. induction lines as [|l lines IH]; intros y; [done |].
  simpl. f_equal. rewrite <- IH. f_equal. lia.
Qed.

Lemma draw_fold_layout dt fg lines img y :
  fst (fold_left (draw_step dt fg) lines (img, y)) =
  draw_placed dt fg img (layout_from y lines).
Proof.
  revert img y. induction lines as [|l lines IH]; intros img y; [done |].
  simpl. by rewrite IH.
Qed.

(** The frame is the background with the placed lines drawn in order. *)
Lemma create_text_image_layout dt text size bg fg :
  create_text_image dt text size bg fg =
  draw_placed dt fg (Image_new size bg) (text_layout text size).
Proof. unfold create_text_image, text_layout. apply draw_fold_layout. Qed.

Lemma first_overlong mw w rest :
  estimated_width w > mw →
  ∃ b2, wrap_blocks mw (w :: rest) = [] :: [w] :: b2 ∧ concat b2 = rest.
Proof.
  intros Hw. unfold wrap_blocks. cbn [fold_left]. unfold block_step at 2.
  rewrite exceeds_word by done.
  destruct rest as [|w2 rest]; [by exists [] |].
  cbn [fold_left]. unfold block_step at 2.
  change ([w] ++ [w2]) with (w :: [w2]). rewrite exceeds_cons by done.
  destruct (blocks_from mw rest (([] ++ [[]]) ++ [[w]]) [w2])
    as (b2 & -> & Hb2).
  by exists b2.
Qed.

(** C10: when the first word of the text alone exceeds the estimated width
    limit, the list of lines starts with an empty line followed by that
    word on a line of its own, so every line of text is drawn one line
    height lower than it would be without the empty line. *)
Theorem first_word_overlong_blank_line
    (dt : image → Z * Z → string → rgb → Z → image)
    (text : string) (size : nat * nat) (bg fg : rgb) (w : string)
    (rest : list string) :
  Py.split text = w :: rest →
  estimated_width w > max_width size →
  ∃ more,
    wrap_lines text size = "" :: w :: more
    ∧ concat (map Py.split more) = rest
    ∧ text_layout text size =
      (margin, "") ::
      map (λ p, (fst p + line_height, snd p)) (layout_from margin (w :: more))
    ∧ create_text_image dt text size bg fg =
      draw_placed dt fg
        (dt (Image_new size bg) (margin, margin) "" fg font_size)
        ((margin + line_height, w) ::
         layout_from (margin + line_height + line_height) more).
Proof.
  intros Hsplit Hw.
  destruct (first_overlong (max_width size) w rest Hw) as (b2 & Hb & Hcat).
  assert (wrap_lines text size = "" :: w :: map Py.join b2) as Hlines.
  { by rewrite wrap_lines_blocks, Hsplit, Hb. }
  exists (map Py.join b2). split_and!.
  - done.
  - rewrite concat_split_join; [done |]. rewrite Hcat.
    pose proof (split_words text) as H. rewrite Hsplit in H.
    by apply Forall_cons in H as [_ ?].
  - unfold text_layout. rewrite Hlines. simpl. f_equal.
    by rewrite <- layout_from_shift.
  - rewrite create_text_image_layout. unfold text_layout.
    by rewrite Hlines.
Qed.

Lemma first_word_overlong_witness :
  ∃ more,
    wrap_lines (Demo.long_word +:+ " is long") default_size =
      "" :: Demo.long_word :: more
    ∧ concat (map Py.split more) = ["is"; "long"]
    ∧ text_layout (Demo.long_word +:+ " is long") default_size =
      (margin, "") ::
      map (λ p, (fst p + line_height, snd p))
          (layout_from margin (Demo.long_word :: more))
    ∧ create_text_image Demo.block_text (Demo.long_word +:+ " is long")
        default_size default_bg white =
      draw_placed Demo.block_text white
        (Demo.block_text (Image_new default_size default_bg)
                         (margin, margin) "" white font_size)
        ((margin + line_height, Demo.long_word) ::
         layout_from (margin + line_height + line_height) more).
Proof.
  apply (first_word_overlong_blank_line Demo.block_text
           (Demo.long_word +:+ " is long") default_size default_bg white
           Demo.long_word ["is"; "long"]).
  - reflexivity.
  - vm_compute. reflexivity.
Defined.

Lemma Image_new_size size bg : has_size size (Image_new size bg).
Proof.
  unfold has_size, Image_new. split; [apply repeat_length |].
  apply Forall_forall. intros row Hrow%list_elem_of_In%repeat_spec.
  subst row. apply repeat_length.
Qed.

Lemma Image_new_pixels size bg row px :
  row ∈ Image_new size bg → px ∈ row → px = bg.
Proof.
  unfold Image_new. intros Hrow%list_elem_of_In%repeat_spec. subst row.
  by intros Hpx%list_elem_of_In%repeat_spec.
Qed.

Lemma draw_placed_size dt size fg placed img :
  (∀ im xy s c f, has_size size im → has_size size (dt im xy s c f)) →
  has_size size img → has_size size (draw_placed dt fg img placed).
Proof.
  intros Hdt. revert img. induction placed as [|p placed IH]; intros img H.
  - done.
  - simpl. apply IH. by apply Hdt.
Qed.

(** C8: [create_text_image] returns a pixel buffer of exactly the
    requested size (1280 x 720 by default) whenever the rasteriser paints
    inside the buffer it is given; the buffer depends on nothing but the
    arguments, so equal arguments give equal buffers; and the empty text
    gives the blank frame in which every pixel is the background colour. *)
Theorem create_text_image_frame
    (dt : image → Z * Z → string → rgb → Z → image)
    (text : string) (size : nat * nat) (bg fg : rgb) :
  (∀ im xy s c f, has_size size im → has_size size (dt im xy s c f)) →
  has_size size (create_text_image dt text size bg fg)
  ∧ default_size = (1280%nat, 720%nat)
  ∧ (∀ text' size' bg' fg',
       text' = text → size' = size → bg' = bg → fg' = fg →
       create_text_image dt text' size' bg' fg' =
       create_text_image dt text size bg fg)
  ∧ (∀ text', Py.split text' = Py.split text →
       create_text_image dt text' size bg fg =
       create_text_image dt text size bg fg)
  ∧ create_text_image dt "" size bg fg = Image_new size bg
  ∧ has_size size (create_text_image dt "" size bg fg)
  ∧ (∀ row px, row ∈ create_text_image dt "" size bg fg → px ∈ row →
               px = bg).
Proof.
  intros Hdt. split_and!.
  - rewrite create_text_image_layout.
    apply draw_placed_size; [done | apply Image_new_size].
  - done.
  - by intros ???? -> -> -> ->.
  - intros text' H. unfold create_text_image, wrap_lines. by rewrite H.
  - done.
  - apply Image_new_size.
  - apply Image_new_pixels.
Qed.

Lemma block_text_size size im xy s c f :
  has_size size im → has_size size (Demo.block_text im xy s c f).
Proof.
  unfold has_size, Demo.block_text. intros [Hlen Hrows]. split.
  - by rewrite length_imap.
  - apply Forall_forall. intros row Hrow.
    apply list_elem_of_lookup in Hrow as [i Hi].
    apply list_lookup_imap_Some in Hi as (row0 & Hrow0 & ->).
    rewrite length_imap.
    rewrite Forall_forall in Hrows. apply Hrows.
    by eapply list_elem_of_lookup_2.
Qed.

Lemma create_text_image_frame_witness :
  has_size default_size
    (create_text_image Demo.block_text "Q: What is 2+2?" default_size
                       default_bg white).
Proof.
  exact (proj1 (create_text_image_frame Demo.block_text "Q: What is 2+2?"
                  default_size default_bg white
                  (block_text_size default_size))).
Defined.

(** ** Input table reader *)

Lemma printed_printed w a b : printed (printed w a) b = printed w (a ++ b).
Proof. unfold printed. simpl. by rewrite <- app_assoc. Qed.

Lemma printed_nil w : printed w [] = w.
Proof. destruct w. unfold printed. simpl. by rewrite app_nil_r. Qed.

Lemma print_run m w : print m w = (Ok tt, printed w [m]).
Proof. reflexivity. Qed.

Section Reader.

Lemma read_csv_attempt_run path enc f w :
  fs w !! path = Some f →
  read_csv_attempt path enc w =
  match as_csv f enc with
  | Ok data =>
      if (1 <? List.length data)%nat
      then (Ok (Some (tail data)), printed w [MsgTrying enc; MsgCsvRead enc])
      else (Ok None, printed w [MsgTrying enc])
  | Raise e => (Raise e, printed w [MsgTrying enc])
  end.
Proof.
  intros Hf. unfold read_csv_attempt, open_file, bind, get. rewrite Hf.
  simpl. destruct (as_csv f enc) as [data | e]; simpl; [| done].
  destruct (1 <? List.length data)%nat; [| done].
  unfold printed. simpl. by rewrite <- app_assoc.
Qed.

Lemma read_csv_attempt_falls_through path enc f w rest :
  fs w !! path = Some f → falls_through f enc →
  read_csv_loop path (enc :: rest) w =
  read_csv_loop path rest (printed w [MsgTrying enc]).
Proof.
  intros Hf Hft. cbn [read_csv_loop].
  rewrite (read_csv_attempt_run _ _ f) by done.
  destruct Hft as [-> | (data & -> & Hlen)]; [done |].
  apply Nat.ltb_ge in Hlen. by rewrite Hlen.
Qed.

(** When every encoding falls through, the final [raise] is reached. *)
Lemma read_csv_loop_exhausted path f encs w :
  fs w !! path = Some f →
  (∀ enc, enc ∈ encs → falls_through f enc) →
  ∃ msgs,
    read_csv_loop path encs w =
    (Raise (ValueError "Could not read CSV file with any encoding"),
     printed w msgs)
    ∧ msgs = map MsgTrying encs.
Proof.
  revert w. induction encs as [|enc encs IH]; intros w Hf Hall.
  - exists []. by rewrite printed_nil.
  - rewrite (read_csv_attempt_falls_through _ _ f) by (done || apply Hall; by left).
    destruct (IH (printed w [MsgTrying enc])) as (msgs & -> & ->);
      [done | by intros ??; apply Hall; right |].
    rewrite printed_printed. by eexists.
Qed.

(** The first encoding that parses wins. *)
Lemma read_csv_loop_first path f pre enc post data w :
  fs w !! path = Some f →
  (∀ enc', enc' ∈ pre → falls_through f enc') →
  as_csv f enc = Ok data → (1 < List.length data)%nat →
  read_csv_loop path (pre ++ enc :: post) w =
  (Ok (tail data),
   printed w (map MsgTrying pre ++ [MsgTrying enc; MsgCsvRead enc])).
Proof.
  revert w. induction pre as [|p pre IH]; intros w Hf Hpre Hdata Hlen.
  - cbn [app read_csv_loop]. rewrite (read_csv_attempt_run _ _ f) by done.
    rewrite Hdata. apply Nat.ltb_lt in Hlen. by rewrite Hlen.
  - cbn [app]. rewrite (read_csv_attempt_falls_through _ _ f)
      by (done || apply Hpre; by left).
    rewrite IH; [| done | by intros ??; apply Hpre; right | done..].
    by rewrite printed_printed.
Qed.

(** The reader never returns an empty list of rows. *)
Lemma read_csv_loop_nonempty path encs w rows w' :
  read_csv_loop path encs w = (Ok rows, w') → rows ≠ [].
Proof.
  revert w. induction encs as [|enc encs IH]; intros w; [done |].
  cbn [read_csv_loop]. unfold read_csv_attempt, open_file, bind, get.
  destruct (fs w !! path) as [f|]; simpl; [| done].
  destruct (as_csv f enc) as [data | e]; simpl.
  - destruct (1 <? List.length data)%nat eqn:Hlen.
    + simpl. intros [= <- _]. apply Nat.ltb_lt in Hlen.
      destruct data as [|h [|r data]]; simpl in *; [lia | lia | done].
    + simpl. apply IH.
  - destruct e; try done. apply IH.
Qed.

(** C9: the reader tries utf-8, utf-8-sig, latin1, cp1252 in that order.
    It returns the rows after the header of the first encoding under
    which the file decodes and has more than the header row, every
    earlier encoding having failed to decode or given at most one row.
    When no encoding of the list does, it raises the [ValueError].  The
    reader only prints: the files are left as they were. *)
Theorem read_csv_first_encoding (path : string) (f : file) (w : world) :
  fs w !! path = Some f →
  encodings = ["utf-8"; "utf-8-sig"; "latin1"; "cp1252"]
  ∧ (∀ pre enc post data,
       encodings = pre ++ enc :: post →
       (∀ enc', enc' ∈ pre →
          as_csv f enc' = Raise UnicodeDecodeError
          ∨ ∃ d, as_csv f enc' = Ok d ∧ (List.length d ≤ 1)%nat) →
       as_csv f enc = Ok data → (1 < List.length data)%nat →
       ∃ msgs, read_csv_with_encoding path w =
               (Ok (tail data), printed w msgs))
  ∧ ((∀ enc, enc ∈ encodings →
        as_csv f enc = Raise UnicodeDecodeError
        ∨ ∃ d, as_csv f enc = Ok d ∧ (List.length d ≤ 1)%nat) →
     ∃ msgs, read_csv_with_encoding path w =
             (Raise (ValueError "Could not read CSV file with any encoding"),
              printed w msgs)).
Proof.
  intros Hf. split_and!; [done | |].
  - intros pre enc post data Hsplit Hpre Hdata Hlen.
    unfold read_csv_with_encoding. rewrite Hsplit.
    rewrite (read_csv_loop_first path f pre enc post data) by done.
    by eexists.
  - intros Hall. unfold read_csv_with_encoding.
    destruct (read_csv_loop_exhausted path f encodings w Hf Hall)
      as (msgs & -> & _).
    by eexists.
Qed.

End Reader.

(** ** The monad *)

Lemma bind_run {A B} (m : M A) (k : A → M B) w :
  bind m k w = match m w with
               | (Ok a, w') => k a w'
               | (Raise e, w') => (Raise e, w')
               end.
Proof. reflexivity. Qed.

Lemma bind_ok_inv {A B} (m : M A) (k : A → M B) w b w' :
  bind m k w = (Ok b, w') →
  ∃ a w1, m w = (Ok a, w1) ∧ k a w1 = (Ok b, w').
Proof.
  unfold bind. destruct (m w) as [[a | e] w1]; [| done].
  intros H. by exists a, w1.
Qed.

Lemma try_finally_ok_inv {A} (body : M A) (cleanup : M unit) w a w' :
  try_finally body cleanup w = (Ok a, w') →
  ∃ w1, body w = (Ok a, w1) ∧ cleanup w1 = (Ok tt, w').
Proof.
  unfold try_finally. destruct (body w) as [r w1].
  destruct (cleanup w1) as [[[] | e] w2] eqn:Hc; [| done].
  intros [= -> ->]. by exists w1.
Qed.

Lemma perform_run path o w :
  perform path o w =
  (match raised o with Some e => Raise e | None => Ok tt end, wrote w path o).
Proof.
  unfold perform, wrote, bind, check.
  destruct (left_file o), (raised o); reflexivity.
Qed.

(** ** Speech Synthesizer Adapter: [create_audio_file] *)

Section Synthesizer.

Variable E : Env.

(** The whole of [create_audio_file], outcome by outcome. *)
Lemma create_audio_file_run text path w :
  create_audio_file E text path w =
  match engine_init E w with
  | Some e => (Raise e, w)
  | None =>
      let w2 := after_engine E text path w in
      match raised (engine_run E (before_engine w text) text path) with
      | Some e => (Raise e, w2)
      | None =>
          match fs w2 !! path with
          | None =>
              (Ok false,
               printed w2 [MsgErrorTestingAudio
                             (LibraryError "Error opening file")])
          | Some f =>
              match as_soundfile f with
              | Raise e => (Ok false, printed w2 [MsgErrorTestingAudio e])
              | Ok (frames, samplerate) =>
                  if decide (samplerate = 0)
                  then (Ok false,
                        printed w2 [MsgAudioCreated path;
                                    MsgErrorTestingAudio ZeroDivisionError])
                  else
                    let w3 := before_playback E text path w
                                              frames samplerate in
                    match sd_play E w3 (sample_frames frames samplerate)
                                  samplerate with
                    | Some e => (Ok false, printed w3 [MsgErrorTestingAudio e])
                    | None => (Ok true, w3)
                    end
              end
          end
      end
  end.
Proof.
  unfold create_audio_file. rewrite bind_run. unfold get at 1.
  rewrite bind_run. destruct (engine_init E w) as [e|]; [done |].
  unfold check at 1, ret at 1. rewrite bind_run, print_run.
  rewrite bind_run. unfold get at 1. rewrite bind_run, perform_run.
  fold (before_engine w text). fold (after_engine E text path w).
  destruct (raised (engine_run E (before_engine w text) text path));
    [done |].
  cbn zeta. set (w2 := after_engine E text path w).
  unfold try_except, sf_read. rewrite !bind_run. unfold get at 1.
  destruct (fs w2 !! path) as [f|]; [| done].
  destruct (as_soundfile f) as [[frames sr] | e]; [| done].
  unfold lift, ret at 1. rewrite !bind_run, print_run, bind_run.
  destruct (decide (sr = 0)) as [-> | Hsr].
  - unfold raise. cbn beta iota. rewrite bind_run, print_run.
    unfold ret. by rewrite printed_printed.
  - rewrite print_run. cbn beta iota. rewrite bind_run, print_run.
    rewrite !printed_printed. rewrite bind_run. unfold get at 1.
    rewrite bind_run. unfold before_playback. fold w2. cbn [app].
    destruct (sd_play E _ _ _) as [e|]; [| done].
    unfold check, raise. cbn beta iota. by rewrite bind_run, print_run.
Qed.

End Synthesizer.

Section SynthesizerClaims.

Variable E : Env.

(** C4, as the code has it: when the engine itself does not raise,
    [create_audio_file] returns [False] whenever the produced file is
    missing or [sf.read] cannot decode it, when the sample rate is zero
    (the duration cannot be computed), and when the playback test
    raises; in every other case it returns [True], whatever the number
    of frames, zero included.  A [False] for the question makes
    [create_qa_clip] raise its [RuntimeError]. *)
Theorem create_audio_file_validation (text path : string) (w : world) :
  engine_init E w = None →
  raised (engine_run E (before_engine w text) text path) = None →
  let w2 := after_engine E text path w in
  let outcome := fst (create_audio_file E text path w) in
  (fs w2 !! path = None → outcome = Ok false)
  ∧ (∀ f e, fs w2 !! path = Some f → as_soundfile f = Raise e →
            outcome = Ok false)
  ∧ (∀ f frames, fs w2 !! path = Some f → as_soundfile f = Ok (frames, 0) →
            outcome = Ok false)
  ∧ (∀ f frames samplerate e,
       fs w2 !! path = Some f → as_soundfile f = Ok (frames, samplerate) →
       samplerate ≠ 0 →
       sd_play E (before_playback E text path w frames samplerate)
               (sample_frames frames samplerate) samplerate = Some e →
       outcome = Ok false)
  ∧ (∀ f frames samplerate,
       fs w2 !! path = Some f → as_soundfile f = Ok (frames, samplerate) →
       samplerate ≠ 0 →
       sd_play E (before_playback E text path w frames samplerate)
               (sample_frames frames samplerate) samplerate = None →
       outcome = Ok true)
  ∧ (∀ answer temp_dir qa_index,
       path = q_path temp_dir qa_index → outcome = Ok false →
       fst (create_qa_clip E text answer temp_dir qa_index w) =
       Raise (RuntimeError "Failed to create or test audio files")).
Proof.
  intros Hinit Hrun w2 outcome. subst outcome.
  rewrite create_audio_file_run, Hinit, Hrun. cbn zeta. fold w2.
  split_and!.
  - by intros ->.
  - by intros f e -> ->.
  - intros f frames -> ->. by rewrite decide_True.
  - intros f frames sr e -> -> Hsr ->. by rewrite decide_False.
  - intros f frames sr -> -> Hsr ->. by rewrite decide_False.
  - intros answer temp_dir qa_index -> Hout.
    unfold create_qa_clip. fold (q_path temp_dir qa_index).
    rewrite bind_run, create_audio_file_run, Hinit, Hrun. cbn zeta.
    fold w2.
    destruct (match fs w2 !! q_path temp_dir qa_index with
              | Some _ => _ | None => _ end) as [[[|] | e] w3];
      simpl in Hout; done.
Qed.

End SynthesizerClaims.

Lemma create_audio_file_validation_witness :
  fst (create_audio_file Demo.env "What is 2+2?" "temp/q_1.wav"
                         Demo.empty_world) = Ok true.
Proof.
  pose proof (create_audio_file_validation Demo.env "What is 2+2?"
                "temp/q_1.wav" Demo.empty_world eq_refl eq_refl) as H.
  cbn zeta in H. destruct H as (_ & _ & _ & _ & H & _).
  apply (H (Demo.wav 44100 22050 2) 44100 22050).
  - vm_compute. reflexivity.
  - reflexivity.
  - discriminate.
  - reflexivity.
Defined.

(** C4, as stated, fails: an engine that writes a valid WAV file with no
    frame at all produces an asset of duration zero, and
    [create_audio_file] accepts it (the file cannot be opened as a clip
    afterwards). *)
Lemma zero_duration_asset_accepted :
  ∃ w' f,
    create_audio_file (Demo.make_env Demo.speak_nothing Demo.encoder_ok)
                      "What is 2+2?" "temp/q_1.wav" Demo.empty_world
    = (Ok true, w')
    ∧ fs w' !! "temp/q_1.wav" = Some f
    ∧ as_soundfile f = Ok (0, 22050)
    ∧ as_audioclip f = Demo.not_a_clip.
Proof.
  eexists _, (Demo.wav 0 22050 0). split_and!.
  - vm_compute. reflexivity.
  - vm_compute. reflexivity.
  - reflexivity.
  - reflexivity.
Qed.

(** ** Segment Composer: [create_qa_clip] *)

Lemma fs_printed w msgs : fs (printed w msgs) = fs w.
Proof. reflexivity. Qed.

Lemma fs_wrote_ne w path o p :
  p ≠ path → fs (wrote w path o) !! p = fs w !! p.
Proof.
  intros Hne. unfold wrote. destruct (left_file o); [| done].
  simpl. by rewrite lookup_insert_ne.
Qed.

Lemma q_path_ne_a_path temp_dir qa_index :
  q_path temp_dir qa_index ≠ a_path temp_dir qa_index.
Proof.
  unfold q_path, a_path, path_join. intros H.
  apply (inj (String.app temp_dir)) in H. discriminate H.
Qed.

Section Composer.

Variable E : Env.

(** [create_audio_file] touches no file but its own. *)
Lemma create_audio_file_other text path w r w' p :
  create_audio_file E text path w = (r, w') → p ≠ path →
  fs w' !! p = fs w !! p.
Proof.
  rewrite create_audio_file_run. intros H Hne.
  assert (fs (after_engine E text path w) !! p = fs w !! p) as Hafter.
  { unfold after_engine. by rewrite fs_wrote_ne. }
  destruct (engine_init E w); [by injection H as _ <- |].
  cbn zeta in H.
  destruct (raised _); [by injection H as _ <- |].
  destruct (fs (after_engine E text path w) !! path) as [f|];
    [| by injection H as _ <-].
  destruct (as_soundfile f) as [[frames sr] | e];
    [| by injection H as _ <-].
  destruct (decide (sr = 0)); [by injection H as _ <- |].
  destruct (sd_play E _ _ _); by injection H as _ <-.
Qed.

(** A validated file is there. *)
Lemma create_audio_file_true text path w w' :
  create_audio_file E text path w = (Ok true, w') →
  ∃ f frames samplerate,
    fs w' !! path = Some f ∧ as_soundfile f = Ok (frames, samplerate)
    ∧ samplerate ≠ 0.
Proof.
  rewrite create_audio_file_run.
  destruct (engine_init E w); [done |]. cbn zeta.
  destruct (raised _); [done |].
  destruct (fs (after_engine E text path w) !! path) as [f|] eqn:Hf;
    [| done].
  destruct (as_soundfile f) as [[frames sr] | e] eqn:Hsf; [| done].
  destruct (decide (sr = 0)); [done |].
  destruct (sd_play E _ _ _); [done |].
  intros [= <-]. by exists f, frames, sr.
Qed.

Lemma create_qa_clip_run question answer temp_dir qa_index w :
  create_qa_clip E question answer temp_dir qa_index w =
  match create_audio_file E question (q_path temp_dir qa_index) w with
  | (Raise e, w1) => (Raise e, w1)
  | (Ok false, w1) =>
      (Raise (RuntimeError "Failed to create or test audio files"), w1)
  | (Ok true, w1) =>
      match create_audio_file E answer (a_path temp_dir qa_index) w1 with
      | (Raise e, w2) => (Raise e, w2)
      | (Ok false, w2) =>
          (Raise (RuntimeError "Failed to create or test audio files"), w2)
      | (Ok true, w2) =>
          try_finally (compose_clips E question answer temp_dir qa_index)
                      (compose_cleanup E temp_dir qa_index) w2
      end
  end.
Proof.
  unfold create_qa_clip. fold (q_path temp_dir qa_index).
  fold (a_path temp_dir qa_index). rewrite bind_run.
  destruct (create_audio_file E question _ w) as [[[|] | e] w1];
    [| done | done].
  cbn [negb]. rewrite !bind_run.
  destruct (create_audio_file E answer _ w1) as [[[|] | e] w2]; done.
Qed.

Lemma AudioFileClip_run path w :
  AudioFileClip path w =
  match fs w !! path with
  | Some f =>
      match as_audioclip f with
      | Ok duration => (Ok (AudioClip path duration), w)
      | Raise e => (Raise e, w)
      end
  | None => (Raise (OSError "No such file or directory"), w)
  end.
Proof.
  unfold AudioFileClip, open_file, bind, get.
  destruct (fs w !! path) as [f|]; [| done]. simpl.
  by destruct (as_audioclip f).
Qed.

Lemma compose_clips_ok_inv question answer temp_dir qa_index w clips w' :
  compose_clips E question answer temp_dir qa_index w = (Ok clips, w') →
  ∃ fq fa dq da,
    fs w !! q_path temp_dir qa_index = Some fq ∧ as_audioclip fq = Ok dq
    ∧ fs w !! a_path temp_dir qa_index = Some fa ∧ as_audioclip fa = Ok da
    ∧ clips = qa_segments (draw_text E) question answer
                (AudioClip (q_path temp_dir qa_index) dq)
                (AudioClip (a_path temp_dir qa_index) da)
    ∧ w' = printed w [MsgClipDurations dq da].
Proof.
  unfold compose_clips. rewrite bind_run, AudioFileClip_run.
  destruct (fs w !! q_path _ _) as [fq|]; [| done].
  destruct (as_audioclip fq) as [dq | e] eqn:Hdq; [| done].
  rewrite bind_run, AudioFileClip_run.
  destruct (fs w !! a_path _ _) as [fa|]; [| done].
  destruct (as_audioclip fa) as [da | e] eqn:Hda; [| done].
  rewrite bind_run, print_run. unfold ret. intros [= <- <-].
  by exists fq, fa, dq, da.
Qed.

(** Success of [create_qa_clip], taken apart. *)
Lemma create_qa_clip_ok_inv question answer temp_dir qa_index w clips w' :
  create_qa_clip E question answer temp_dir qa_index w = (Ok clips, w') →
  ∃ w2 fq fa dq da,
    fs w2 !! q_path temp_dir qa_index = Some fq ∧ as_audioclip fq = Ok dq
    ∧ fs w2 !! a_path temp_dir qa_index = Some fa ∧ as_audioclip fa = Ok da
    ∧ clips = qa_segments (draw_text E) question answer
                (AudioClip (q_path temp_dir qa_index) dq)
                (AudioClip (a_path temp_dir qa_index) da).
Proof.
  rewrite create_qa_clip_run.
  destruct (create_audio_file E question _ w) as [[[|] | e] w1];
    [| done | done].
  destruct (create_audio_file E answer _ w1) as [[[|] | e] w2];
    [| done | done].
  intros (w3 & Hbody & _)%try_finally_ok_inv.
  apply compose_clips_ok_inv in Hbody
    as (fq & fa & dq & da & ? & ? & ? & ? & ? & _).
  by exists w2, fq, fa, dq, da.
Qed.

(** The [finally] block never raises. *)
Lemma compose_cleanup_ok temp_dir qa_index w :
  ∃ w', compose_cleanup E temp_dir qa_index w = (Ok tt, w').
Proof.
  unfold compose_cleanup, try_except.
  destruct (unlink_existing E _ w) as [[[] | e] w1]; by eexists.
Qed.

(** When both files validate and both decode as audio clips, the four
    clips are returned. *)
Lemma create_qa_clip_success question answer temp_dir qa_index
    w w1 w2 fq fa dq da :
  create_audio_file E question (q_path temp_dir qa_index) w = (Ok true, w1) →
  create_audio_file E answer (a_path temp_dir qa_index) w1 = (Ok true, w2) →
  fs w2 !! q_path temp_dir qa_index = Some fq → as_audioclip fq = Ok dq →
  fs w2 !! a_path temp_dir qa_index = Some fa → as_audioclip fa = Ok da →
  ∃ w',
    create_qa_clip E question answer temp_dir qa_index w =
    (Ok (qa_segments (draw_text E) question answer
           (AudioClip (q_path temp_dir qa_index) dq)
           (AudioClip (a_path temp_dir qa_index) da)), w').
Proof.
  intros Hq Ha Hfq Hdq Hfa Hda.
  rewrite create_qa_clip_run, Hq, Ha.
  unfold try_finally, compose_clips.
  rewrite bind_run, AudioFileClip_run, Hfq, Hdq.
  rewrite bind_run, AudioFileClip_run, Hfa, Hda.
  rewrite bind_run, print_run. unfold ret. cbn [ac_duration].
  destruct (compose_cleanup_ok temp_dir qa_index
              (printed w2 [MsgClipDurations dq da])) as [w' ->].
  by exists w'.
Qed.

(** The [try] block only reads the files. *)
Lemma compose_clips_world question answer temp_dir qa_index w r w' :
  compose_clips E question answer temp_dir qa_index w = (r, w') →
  fs w' = fs w ∧ dirs w' = dirs w.
Proof.
  unfold compose_clips. rewrite bind_run, AudioFileClip_run.
  destruct (fs w !! q_path _ _) as [fq|]; [| by intros [= _ <-]].
  destruct (as_audioclip fq) as [dq | e]; [| by intros [= _ <-]].
  rewrite bind_run, AudioFileClip_run.
  destruct (fs w !! a_path _ _) as [fa|]; [| by intros [= _ <-]].
  destruct (as_audioclip fa) as [da | e]; [| by intros [= _ <-]].
  rewrite bind_run, print_run. unfold ret. by intros [= _ <-].
Qed.

(** One round of [if file.exists(): file.unlink()] when [unlink] works. *)
Lemma unlink_if_exists_run path w :
  unlink_error E w path = None → path ∉ dirs w →
  ∃ w1, (if path_exists w path then unlink E path else ret tt) w = (Ok tt, w1)
        ∧ fs w1 = delete path (fs w) ∧ dirs w1 = dirs w.
Proof.
  intros Hun Hdir. unfold path_exists, unlink.
  rewrite (bool_decide_eq_false_2 (path ∈ dirs w)) by done.
  rewrite orb_false_r.
  destruct (fs w !! path) as [f|] eqn:Hf.
  - rewrite bool_decide_eq_true_2 by by eexists.
    rewrite bind_run. unfold get at 1. cbn beta iota.
    rewrite Hf, bind_run, Hun. by eexists.
  - rewrite bool_decide_eq_false_2 by (by intros [??]).
    exists w. split_and!; [done | | done].
    by rewrite delete_id.
Qed.

(** The [finally] block deletes both files when [unlink] works. *)
Lemma compose_cleanup_deletes temp_dir qa_index w :
  (∀ w p, unlink_error E w p = None) →
  q_path temp_dir qa_index ∉ dirs w → a_path temp_dir qa_index ∉ dirs w →
  ∃ w', compose_cleanup E temp_dir qa_index w = (Ok tt, w')
        ∧ fs w' !! q_path temp_dir qa_index = None
        ∧ fs w' !! a_path temp_dir qa_index = None.
Proof.
  intros Hun Hq Ha. unfold compose_cleanup, try_except.
  cbn [unlink_existing]. rewrite bind_run. unfold get at 1.
  rewrite bind_run.
  destruct (unlink_if_exists_run (q_path temp_dir qa_index) w)
    as (w1 & -> & Hfs1 & Hdirs1); [done.. |].
  rewrite bind_run. unfold get at 1. rewrite bind_run.
  destruct (unlink_if_exists_run (a_path temp_dir qa_index) w1)
    as (w2 & -> & Hfs2 & Hdirs2); [done | by rewrite Hdirs1 |].
  exists w2. unfold ret. split_and!; [done | |].
  - rewrite Hfs2, Hfs1.
    rewrite lookup_delete_ne by (symmetry; apply q_path_ne_a_path).
    apply lookup_delete_eq.
  - rewrite Hfs2. apply lookup_delete_eq.
Qed.

(** Once the [try] is entered, both files are gone when [create_qa_clip]
    is left, whether it returns or raises. *)
Lemma create_qa_clip_try_cleans question answer temp_dir qa_index w w1 w2 :
  (∀ w p, unlink_error E w p = None) →
  create_audio_file E question (q_path temp_dir qa_index) w = (Ok true, w1) →
  create_audio_file E answer (a_path temp_dir qa_index) w1 = (Ok true, w2) →
  q_path temp_dir qa_index ∉ dirs w2 → a_path temp_dir qa_index ∉ dirs w2 →
  fs (snd (create_qa_clip E question answer temp_dir qa_index w))
     !! q_path temp_dir qa_index = None
  ∧ fs (snd (create_qa_clip E question answer temp_dir qa_index w))
       !! a_path temp_dir qa_index = None.
Proof.
  intros Hun Hq Ha Hdq Hda. rewrite create_qa_clip_run, Hq, Ha.
  unfold try_finally.
  destruct (compose_clips E question answer temp_dir qa_index w2)
    as [r w3] eqn:Hbody.
  apply compose_clips_world in Hbody as [Hfs Hdirs].
  destruct (compose_cleanup_deletes temp_dir qa_index w3)
    as (w4 & -> & ? & ?); [done | by rewrite Hdirs.. |].
  done.
Qed.

End Composer.

Lemma create_text_image_empty dt size bg fg :
  create_text_image dt "" size bg fg = Image_new size bg.
Proof. reflexivity. Qed.

(** C1: when [create_qa_clip] succeeds it returns exactly four clips, in
    this order: the frame of ["Q: " + question] on the dark-blue
    background with the question's audio, a black pause, the frame of
    ["A: " + answer] on the dark-green background with the answer's audio,
    and the black pause again.  A speech clip lasts exactly as long as its
    audio, which was read from the pair's temporary file; a pause lasts
    0.5 s and has no audio. *)
Theorem create_qa_clip_segments (E : Env) (question answer temp_dir : string)
    (qa_index : nat) (w : world) (clips : list clip) (w' : world) :
  create_qa_clip E question answer temp_dir qa_index w = (Ok clips, w') →
  ∃ q_audio a_audio,
    let q_frame :=
      create_text_image (draw_text E) ("Q: " +:+ question)
                        (1280%nat, 720%nat) (0, 0, 128) (255, 255, 255) in
    let a_frame :=
      create_text_image (draw_text E) ("A: " +:+ answer)
                        (1280%nat, 720%nat) (0, 64, 0) (255, 255, 255) in
    let pause :=
      Clip (Image_new (1280%nat, 720%nat) (0, 0, 0)) 0.5%float None in
    clips = [Clip q_frame (ac_duration q_audio) (Some q_audio);
             pause;
             Clip a_frame (ac_duration a_audio) (Some a_audio);
             pause]
    ∧ List.length clips = 4%nat
    ∧ ac_filename q_audio = q_path temp_dir qa_index
    ∧ ac_filename a_audio = a_path temp_dir qa_index
    ∧ ∃ w2 fq fa,
        fs w2 !! q_path temp_dir qa_index = Some fq
        ∧ as_audioclip fq = Ok (ac_duration q_audio)
        ∧ fs w2 !! a_path temp_dir qa_index = Some fa
        ∧ as_audioclip fa = Ok (ac_duration a_audio).
Proof.
  intros (w2 & fq & fa & dq & da & Hfq & Hdq & Hfa & Hda & ->)
    %create_qa_clip_ok_inv.
  exists (AudioClip (q_path temp_dir qa_index) dq),
         (AudioClip (a_path temp_dir qa_index) da).
  cbn zeta. split_and!; [done.. |]. by exists w2, fq, fa.
Qed.

Lemma create_qa_clip_segments_witness :
  ∃ (clips : list clip) (q_audio a_audio : audio_clip),
    fst (create_qa_clip Demo.env "What is 2+2?" "4" "temp" 1
                        Demo.empty_world) = Ok clips
    ∧ List.length clips = 4%nat
    ∧ map clip_audio clips = [Some q_audio; None; Some a_audio; None]
    ∧ map clip_duration clips =
      [ac_duration q_audio; 0.5%float; ac_duration a_audio; 0.5%float].
Proof.
  set (w1 := snd (create_audio_file Demo.env "What is 2+2?"
                    (q_path "temp" 1) Demo.empty_world)).
  set (w2 := snd (create_audio_file Demo.env "4" (a_path "temp" 1) w1)).
  destruct (create_qa_clip_success Demo.env "What is 2+2?" "4" "temp" 1
              Demo.empty_world w1 w2
              (Demo.wav 44100 22050 2) (Demo.wav 44100 22050 2) 2%float
              2%float)
    as [w' Hrun].
  - vm_compute. reflexivity.
  - vm_compute. reflexivity.
  - vm_compute. reflexivity.
  - reflexivity.
  - vm_compute. reflexivity.
  - reflexivity.
  - destruct (create_qa_clip_segments Demo.env "What is 2+2?" "4" "temp" 1
                Demo.empty_world _ w' Hrun)
      as (q_audio & a_audio & Hclips & Hlen & _).
    eexists _, q_audio, a_audio. rewrite Hrun. split_and!.
    + reflexivity.
    + exact Hlen.
    + rewrite Hclips. reflexivity.
    + rewrite Hclips. reflexivity.
Defined.

(** C5, at the exit the [finally] does not cover: when the question's
    file was validated and the answer's is then rejected,
    [create_qa_clip] raises from before its [try], so no cleanup runs and
    the question's file is still there when the error propagates. *)
Theorem answer_failure_leaves_question_file (E : Env)
    (question answer temp_dir : string) (qa_index : nat) (w w1 w2 : world) :
  create_audio_file E question (q_path temp_dir qa_index) w = (Ok true, w1) →
  create_audio_file E answer (a_path temp_dir qa_index) w1 = (Ok false, w2) →
  create_qa_clip E question answer temp_dir qa_index w =
    (Raise (RuntimeError "Failed to create or test audio files"), w2)
  ∧ is_Some (fs w2 !! q_path temp_dir qa_index).
Proof.
  intros Hq Ha. split.
  - by rewrite create_qa_clip_run, Hq, Ha.
  - rewrite (create_audio_file_other E _ _ _ _ _ _ Ha)
      by apply q_path_ne_a_path.
    apply create_audio_file_true in Hq as (f & _ & _ & -> & _). by eexists.
Qed.

Lemma answer_failure_leaves_question_file_witness :
  ∃ w2,
    create_qa_clip (Demo.make_env Demo.speak_garbled Demo.encoder_ok)
                   "What is 2+2?" "4" "temp" 1 Demo.empty_world =
      (Raise (RuntimeError "Failed to create or test audio files"), w2)
    ∧ is_Some (fs w2 !! "temp/q_1.wav").
Proof.
  eexists.
  apply (answer_failure_leaves_question_file
           (Demo.make_env Demo.speak_garbled Demo.encoder_ok)
           "What is 2+2?" "4" "temp" 1 Demo.empty_world
           (snd (create_audio_file
                   (Demo.make_env Demo.speak_garbled Demo.encoder_ok)
                   "What is 2+2?" (q_path "temp" 1) Demo.empty_world))).
  - vm_compute. reflexivity.
  - vm_compute. reflexivity.
Defined.

(** ** Timeline Aggregator: [build_timeline] *)

Section Aggregator.

Variable E : Env.

Lemma process_pairs_cons n temp_path i question answer rest all_clips
    w cs w1 :
  create_qa_clip E (Py.strip question) (Py.strip answer) temp_path i
                 (printed w [MsgProcessing i n]) = (Ok cs, w1) →
  process_pairs E n temp_path i ([question; answer] :: rest) all_clips w =
  process_pairs E n temp_path (S i) rest (all_clips ++ cs)
                (printed w1 [MsgProgress i n]).
Proof.
  intros H. cbn [process_pairs]. rewrite bind_run, print_run.
  rewrite bind_run, H. by rewrite bind_run, print_run.
Qed.

Lemma process_pairs_ok_inv rows n temp_path i all_clips w all w' :
  process_pairs E n temp_path i rows all_clips w = (Ok all, w') →
  ∃ css, all = all_clips ++ concat css
         ∧ Forall2 (pair_segments E temp_path)
                   (zip (seq i (List.length rows)) rows) css.
Proof.
  revert i all_clips w.
  induction rows as [|row rows IH]; intros i all_clips w.
  - intros [= <- _]. exists []. split; [by rewrite app_nil_r | constructor].
  - destruct row as [|question [|answer [|extra row]]]; [done.. | | done].
    cbn [process_pairs].
    intros ([] & w0 & Hprint & H)%bind_ok_inv.
    apply bind_ok_inv in H as (cs & w1 & Hcs & H).
    apply bind_ok_inv in H as ([] & w2 & _ & H).
    apply IH in H as (css & -> & Hcss).
    exists (cs :: css). split; [by rewrite <- app_assoc |].
    cbn [List.length seq zip zip_with]. constructor; [| done].
    pose proof Hcs as (w3 & fq & fa & dq & da & _ & _ & _ & _ & Hseg)
      %create_qa_clip_ok_inv.
    by eexists question, answer, (AudioClip _ dq), (AudioClip _ da), w0, w1.
Qed.

Lemma pair_segments_length temp_path irs css :
  Forall2 (pair_segments E temp_path) irs css →
  List.length (concat css) = (4 * List.length irs)%nat.
Proof.
  induction 1 as [|ir cs irs css Hcs _ IH]; [done |].
  destruct Hcs as (q & a & qa & aa & wk & wk' & _ & _ & -> & _).
  cbn [concat]. rewrite length_app, IH. simpl. lia.
Qed.

(** C2, as the code has it: when all pairs succeed, the timeline holds
    exactly four clips per pair, the clips of pair 1 first, then those of
    pair 2, and so on in input order; each group is what [create_qa_clip]
    returned for the stripped question and answer of its row.  The
    duration of the timeline is the running total of the durations of its
    clips, added one by one in binary64 from [0] and from left to right
    (and kept at [0] or above), each addition rounding; it need not be
    their exact sum.  (An empty input has no timeline:
    [concatenate_videoclips] refuses it.) *)
Theorem build_timeline_segments (qa_pairs : list (list string))
    (temp_path : string) (w : world) (final_video : timeline) (w' : world) :
  build_timeline E qa_pairs temp_path w = (Ok final_video, w') →
  qa_pairs ≠ []
  ∧ List.length (tl_clips final_video) = (4 * List.length qa_pairs)%nat
  ∧ (∃ css,
       tl_clips final_video = concat css
       ∧ Forall2 (pair_segments E temp_path)
                 (zip (seq 1 (List.length qa_pairs)) qa_pairs) css)
  ∧ tl_duration final_video =
    np_maximum 0
      (fold_left PrimFloat.add
                 (map clip_duration (tl_clips final_video)) 0 + 0)%float.
Proof.
  unfold build_timeline.
  intros (all & w1 & Hall & H)%bind_ok_inv.
  apply bind_ok_inv in H as ([] & w2 & _ & H).
  apply process_pairs_ok_inv in Hall as (css & Hclips & Hcss).
  simpl in Hclips. subst all.
  pose proof (pair_segments_length _ _ _ Hcss) as Hlen.
  rewrite length_zip_with, length_seq, Nat.min_id in Hlen.
  unfold concatenate_videoclips in H.
  destruct (concat css) as [|c0 cs0] eqn:Hcat.
  - done.
  - injection H as <- _. cbn [tl_clips tl_duration].
    split_and!.
    + intros ->. simpl in Hlen. lia.
    + done.
    + exists css. by rewrite Hcat.
    + done.
Qed.

End Aggregator.

(** ** The example world at work *)

Lemma voiced_create_audio_file voice encoder w text path :
  create_audio_file (Demo.make_env (Demo.speak_as voice) encoder) text path w =
  (Ok true,
   before_playback (Demo.make_env (Demo.speak_as voice) encoder) text path w
                   (fst (voice text)) 22050).
Proof.
  rewrite create_audio_file_run. cbn [engine_init Demo.make_env].
  cbn zeta. unfold after_engine at 1 2.
  cbn [engine_run Demo.make_env Demo.speak_as raised left_file wrote fs].
  rewrite lookup_insert_eq.
  cbn [as_soundfile Demo.wav]. rewrite decide_False by done.
  reflexivity.
Qed.

(** With an engine that records every text and an audio decoder that
    reads the recordings, [create_qa_clip] succeeds; the two audio clips
    have the durations of the recordings. *)
Lemma voiced_create_qa_clip voice encoder w question answer temp_dir
    qa_index :
  fst (voice question) ≠ 0 → fst (voice answer) ≠ 0 →
  ∃ w',
    create_qa_clip (Demo.make_env (Demo.speak_as voice) encoder)
                   question answer temp_dir qa_index w =
    (Ok (qa_segments Demo.block_text question answer
           (AudioClip (q_path temp_dir qa_index) (snd (voice question)))
           (AudioClip (a_path temp_dir qa_index) (snd (voice answer)))),
     w').
Proof.
  intros Hq Ha.
  set (E := Demo.make_env (Demo.speak_as voice) encoder).
  set (qp := q_path temp_dir qa_index). set (ap := a_path temp_dir qa_index).
  set (w1 := before_playback E question qp w (fst (voice question)) 22050).
  set (w2 := before_playback E answer ap w1 (fst (voice answer)) 22050).
  apply (create_qa_clip_success E question answer temp_dir qa_index
           w w1 w2
           (Demo.wav (fst (voice question)) 22050 (snd (voice question)))
           (Demo.wav (fst (voice answer)) 22050 (snd (voice answer)))).
  - apply voiced_create_audio_file.
  - apply voiced_create_audio_file.
  - unfold w2, before_playback, after_engine.
    cbn [fs printed wrote left_file engine_run E Demo.make_env Demo.speak_as].
    rewrite lookup_insert_ne by (symmetry; apply q_path_ne_a_path).
    apply lookup_insert_eq.
  - cbn [as_audioclip Demo.wav]. by rewrite decide_False.
  - unfold w2, before_playback, after_engine.
    cbn [fs printed wrote left_file engine_run E Demo.make_env Demo.speak_as].
    apply lookup_insert_eq.
  - cbn [as_audioclip Demo.wav]. by rewrite decide_False.
Qed.

Lemma demo_create_audio_file encoder w text path :
  create_audio_file (Demo.make_env Demo.speak encoder) text path w =
  (Ok true,
   before_playback (Demo.make_env Demo.speak encoder) text path w
                   44100 22050).
Proof. apply (voiced_create_audio_file Demo.two_seconds). Qed.

Lemma demo_create_qa_clip encoder w question answer temp_dir qa_index :
  ∃ q_audio a_audio w',
    create_qa_clip (Demo.make_env Demo.speak encoder) question answer
                   temp_dir qa_index w =
    (Ok (qa_segments Demo.block_text question answer q_audio a_audio), w').
Proof.
  destruct (voiced_create_qa_clip Demo.two_seconds encoder w question answer
              temp_dir qa_index) as [w' Hrun]; [done.. |].
  by eexists _, _, w'.
Qed.

Lemma build_timeline_segments_witness :
  ∃ final_video,
    fst (build_timeline Demo.env
           [["What is 2+2?"; "4"]; ["Capital of France?"; "Paris"]]
           "temp" Demo.empty_world) = Ok final_video
    ∧ List.length (tl_clips final_video) = 8%nat
    ∧ tl_duration final_video =
      np_maximum 0
        (fold_left PrimFloat.add
                   (map clip_duration (tl_clips final_video)) 0 + 0)%float.
Proof.
  assert (∃ final_video w',
            build_timeline Demo.env
              [["What is 2+2?"; "4"]; ["Capital of France?"; "Paris"]]
              "temp" Demo.empty_world = (Ok final_video, w'))
    as (final_video & w' & Hrun).
  { unfold build_timeline. rewrite bind_run.
    destruct (demo_create_qa_clip Demo.encoder_ok
                (printed Demo.empty_world [MsgProcessing 1 2])
                (Py.strip "What is 2+2?") (Py.strip "4") "temp" 1)
      as (qa1 & aa1 & w1 & H1).
    rewrite (process_pairs_cons _ _ _ _ _ _ _ _ _ _ w1 H1).
    destruct (demo_create_qa_clip Demo.encoder_ok
                (printed (printed w1 [MsgProgress 1 2]) [MsgProcessing 2 2])
                (Py.strip "Capital of France?") (Py.strip "Paris") "temp" 2)
      as (qa2 & aa2 & w2 & H2).
    rewrite (process_pairs_cons _ _ _ _ _ _ _ _ _ _ w2 H2).
    cbn [process_pairs]. unfold ret at 1. rewrite bind_run, print_run.
    unfold qa_segments at 1. cbn [app concatenate_videoclips].
    unfold ret. by eexists _, _. }
  destruct (build_timeline_segments Demo.env _ "temp" Demo.empty_world
              final_video w' Hrun) as (_ & Hlen & _ & Hsum).
  exists final_video. rewrite Hrun. split_and!.
  - reflexivity.
  - exact Hlen.
  - exact Hsum.
Defined.

(** C2, as stated, fails: for one pair whose question is spoken in 0.2 s
    and whose answer in 0.1 s, the four clips last 0.2, 0.5, 0.1 and 0.5
    seconds, and the timeline's duration is 1.2999999999999998: the
    additions have rounded, and the result is not the exact sum of the
    four durations (which lies closer to the binary64 number 1.3). *)
Lemma timeline_duration_not_exact_sum :
  ∃ final_video,
    fst (build_timeline
           (Demo.make_env (Demo.speak_as Demo.short_voice) Demo.encoder_ok)
           [["Hi?"; "Yo"]] "temp" Demo.empty_world) = Ok final_video
    ∧ map clip_duration (tl_clips final_video) =
      [0x1.999999999999ap-3; 0x1p-1; 0x1.999999999999ap-4; 0x1p-1]%float
    ∧ tl_duration final_video = 0x1.4ccccccccccccp+0%float
    ∧ ¬ (float_to_Q (tl_duration final_video) ==
         fold_right Qplus 0
           (map float_to_Q (map clip_duration (tl_clips final_video))))%Q
    ∧ (float_to_Q 0x1.4cccccccccccdp+0 -
       fold_right Qplus 0
         (map float_to_Q (map clip_duration (tl_clips final_video))) <
       fold_right Qplus 0
         (map float_to_Q (map clip_duration (tl_clips final_video))) -
       float_to_Q (tl_duration final_video))%Q.
Proof.
  set (E := Demo.make_env (Demo.speak_as Demo.short_voice) Demo.encoder_ok).
  destruct (voiced_create_qa_clip Demo.short_voice Demo.encoder_ok
              (printed Demo.empty_world [MsgProcessing 1 1])
              (Py.strip "Hi?") (Py.strip "Yo") "temp" 1)
    as (w1 & H1); [by vm_compute.. |].
  fold E in H1.
  unfold build_timeline. rewrite bind_run.
  rewrite (process_pairs_cons _ _ _ _ _ _ _ _ _ _ w1 H1).
  cbn [process_pairs]. unfold ret at 1. rewrite bind_run, print_run.
  unfold qa_segments at 1. cbn [app concatenate_videoclips].
  unfold ret. eexists. split; [reflexivity |].
  cbn [tl_clips tl_duration map clip_duration ac_duration np_cumsum_last].
  split_and!.
  - vm_compute. reflexivity.
  - vm_compute. reflexivity.
  - vm_compute. discriminate.
  - vm_compute. reflexivity.
Qed.

(** ** Encoder: the two attempts *)

Create HintDb keeps discriminated.

Lemma keeps_ret {A} (a : A) : keeps_encodes (ret a).
Proof. done. Qed.
Lemma keeps_raise {A} e : keeps_encodes (@raise A e).
Proof. done. Qed.
Lemma keeps_get : keeps_encodes get.
Proof. done. Qed.
Lemma keeps_print m : keeps_encodes (print m).
Proof. done. Qed.
Lemma keeps_set_fs f : keeps_encodes (set_fs f).
Proof. done. Qed.
Lemma keeps_set_dirs f : keeps_encodes (set_dirs f).
Proof. done. Qed.
Lemma keeps_check o : keeps_encodes (check o).
Proof. by destruct o. Qed.
Lemma keeps_lift {A} (r : result A) : keeps_encodes (lift r).
Proof. by destruct r. Qed.

Lemma keeps_bind {A B} (m : M A) (k : A → M B) :
  keeps_encodes m → (∀ a, keeps_encodes (k a)) → keeps_encodes (bind m k).
Proof.
  intros Hm Hk w. unfold bind. specialize (Hm w).
  destruct (m w) as [[a | e] w1]; simpl in *; [| done].
  by rewrite Hk.
Qed.

Lemma keeps_try_except {A} (body : M A) handler :
  keeps_encodes body → (∀ e, keeps_encodes (handler e)) →
  keeps_encodes (try_except body handler).
Proof.
  intros Hm Hk w. unfold try_except. specialize (Hm w).
  destruct (body w) as [[a | e] w1]; simpl in *; [done |].
  by rewrite Hk.
Qed.

Lemma keeps_try_finally {A} (body : M A) cleanup :
  keeps_encodes body → keeps_encodes cleanup →
  keeps_encodes (try_finally body cleanup).
Proof.
  intros Hm Hc w. unfold try_finally. specialize (Hm w).
  destruct (body w) as [r w1]. specialize (Hc w1).
  destruct (cleanup w1) as [[[] | e] w2]; simpl in *; congruence.
Qed.

Lemma keeps_perform path o : keeps_encodes (perform path o).
Proof.
  intros w. rewrite perform_run. unfold wrote. by destruct (left_file o).
Qed.

Global Hint Resolve keeps_ret keeps_raise keeps_get keeps_print keeps_set_fs
  keeps_set_dirs keeps_check keeps_lift keeps_perform : keeps.

(** Take a computation apart along its binds, handlers and branches. *)
Ltac keeps :=
  repeat first
    [ progress intros
    | apply keeps_bind
    | apply keeps_try_except
    | apply keeps_try_finally
    | solve [auto with keeps]
    | match goal with
      | |- keeps_encodes (if ?b then _ else _) => destruct b
      | |- keeps_encodes (match ?x with _ => _ end) => destruct x
      | |- keeps_encodes (let '(_, _) := ?x in _) => destruct x
      end ].

Section Encoder.

Variable E : Env.

Lemma keeps_open_file path : keeps_encodes (open_file path).
Proof. unfold open_file. keeps. Qed.

Lemma keeps_mkdir path : keeps_encodes (mkdir_exist_ok path).
Proof. unfold mkdir_exist_ok. keeps. Qed.

Lemma keeps_rmdir path : keeps_encodes (rmdir path).
Proof. unfold rmdir. keeps. Qed.

Lemma keeps_unlink path : keeps_encodes (unlink E path).
Proof. unfold unlink. keeps. Qed.

Hint Resolve keeps_open_file keeps_mkdir keeps_rmdir keeps_unlink : keeps.

Lemma keeps_unlink_existing files : keeps_encodes (unlink_existing E files).
Proof. induction files; cbn [unlink_existing]; keeps. Qed.

Lemma keeps_unlink_each files : keeps_encodes (unlink_each E files).
Proof. induction files; cbn [unlink_each]; keeps. Qed.

Hint Resolve keeps_unlink_existing keeps_unlink_each : keeps.

Lemma keeps_create_audio_file text path :
  keeps_encodes (create_audio_file E text path).
Proof. unfold create_audio_file, sf_read. keeps. Qed.

Lemma keeps_AudioFileClip path : keeps_encodes (AudioFileClip path).
Proof. unfold AudioFileClip. keeps. Qed.

Hint Resolve keeps_create_audio_file keeps_AudioFileClip : keeps.

Lemma keeps_create_qa_clip question answer temp_dir qa_index :
  keeps_encodes (create_qa_clip E question answer temp_dir qa_index).
Proof. unfold create_qa_clip. keeps. Qed.

Hint Resolve keeps_create_qa_clip : keeps.

Lemma keeps_process_pairs n temp_path rows i all_clips :
  keeps_encodes (process_pairs E n temp_path i rows all_clips).
Proof.
  revert i all_clips. induction rows as [|row rows IH]; intros i all_clips.
  - cbn [process_pairs]. keeps.
  - destruct row as [|q [|a [|x row]]]; cbn [process_pairs]; keeps.
Qed.

Hint Resolve keeps_process_pairs : keeps.

Lemma keeps_build_timeline qa_pairs temp_path :
  keeps_encodes (build_timeline E qa_pairs temp_path).
Proof. unfold build_timeline, concatenate_videoclips. keeps. Qed.

Lemma keeps_cleanup_temp temp_path : keeps_encodes (cleanup_temp E temp_path).
Proof. unfold cleanup_temp. keeps. Qed.

(** The [finally] block of [create_video] never raises. *)
Lemma cleanup_temp_ok temp_path w :
  ∃ w', cleanup_temp E temp_path w = (Ok tt, w').
Proof.
  unfold cleanup_temp. rewrite bind_run. unfold get at 1.
  destruct (path_exists w temp_path); [| by eexists].
  unfold try_except.
  destruct ((w0 <- get ;; _) w) as [[[] | e] w1]; by eexists.
Qed.

Lemma run_write_videofile_run tl path cfg w :
  run_write_videofile E tl path cfg w =
  (match raised (write_videofile E (logged w cfg) tl path cfg) with
   | Some e => Raise e
   | None => Ok tt
   end,
   wrote (logged w cfg) path (write_videofile E (logged w cfg) tl path cfg)).
Proof.
  unfold run_write_videofile. rewrite bind_run. unfold log_encode.
  fold (logged w cfg). rewrite bind_run. unfold get at 1.
  by rewrite perform_run.
Qed.

Lemma encodes_wrote w path o : encodes (wrote w path o) = encodes w.
Proof. unfold wrote. by destruct (left_file o). Qed.

(** The whole of [encode], outcome by outcome. *)
Lemma encode_run tl path w :
  encode E tl path w =
  match raised (first_attempt E tl path w) with
  | None =>
      (Ok tt, wrote (logged w primary_cfg) path (first_attempt E tl path w))
  | Some e1 =>
      (match raised (second_attempt E tl path w e1) with
       | Some e2 => Raise e2
       | None => Ok tt
       end,
       wrote (before_second E tl path w e1) path
             (second_attempt E tl path w e1))
  end.
Proof.
  unfold encode, try_except. rewrite run_write_videofile_run.
  fold (first_attempt E tl path w).
  destruct (raised (first_attempt E tl path w)) as [e1|]; [| done].
  rewrite bind_run, print_run, bind_run, print_run, printed_printed.
  by rewrite run_write_videofile_run.
Qed.

End Encoder.

Lemma encodes_before_second E tl path w e1 :
  encodes (before_second E tl path w e1) =
  encodes w ++ [primary_cfg; fallback_cfg].
Proof.
  unfold before_second, logged, printed. cbn [encodes].
  rewrite encodes_wrote. cbn [encodes]. by rewrite <- app_assoc.
Qed.

(** With an encoder that refuses both configurations, a run that gets as
    far as encoding makes the two attempts and raises the second error. *)
Lemma create_video_encoder_fails E qa_pairs output_dir w e1 e2 :
  (∀ w tl p, raised (write_videofile E w tl p primary_cfg) = Some e1) →
  (∀ w tl p, raised (write_videofile E w tl p fallback_cfg) = Some e2) →
  (encodes (snd (create_video E qa_pairs output_dir w)) = encodes w
   ∧ ∃ e, fst (create_video E qa_pairs output_dir w) = Raise e)
  ∨ (encodes (snd (create_video E qa_pairs output_dir w)) =
       encodes w ++ [primary_cfg; fallback_cfg]
     ∧ fst (create_video E qa_pairs output_dir w) = Raise e2).
Proof.
  intros Hfirst Hsecond. unfold create_video. rewrite bind_run.
  pose proof (keeps_mkdir output_dir w) as Hk1.
  destruct (mkdir_exist_ok output_dir w) as [[[] | e] w1];
    simpl in Hk1; [| left; eauto].
  rewrite bind_run. pose proof (keeps_mkdir "temp" w1) as Hk2.
  destruct (mkdir_exist_ok "temp" w1) as [[[] | e] w2];
    simpl in Hk2; [| left; split; [cbn [snd]; congruence | eauto]].
  unfold try_finally. rewrite bind_run.
  pose proof (keeps_build_timeline E qa_pairs "temp" w2) as Hk3.
  destruct (build_timeline E qa_pairs "temp" w2) as [[tl | e] w3];
    simpl in Hk3.
  - rewrite bind_run, print_run, bind_run, encode_run.
    unfold first_attempt, second_attempt. rewrite Hfirst, Hsecond.
    match goal with
    | |- context [cleanup_temp E "temp" ?w0] =>
        pose proof (keeps_cleanup_temp E "temp" w0) as Hk4;
        destruct (cleanup_temp_ok E "temp" w0) as [w4 Hc]
    end.
    rewrite Hc in *. simpl in Hk4. right. split; [| done].
    cbn [snd]. rewrite Hk4, encodes_wrote.
    fold (first_attempt E tl (path_join output_dir "qa_video.mp4")
            (printed w3 [MsgWriting])).
    rewrite encodes_before_second. cbn [encodes printed]. congruence.
  - pose proof (keeps_cleanup_temp E "temp" w3) as Hk4.
    destruct (cleanup_temp_ok E "temp" w3) as [w4 Hc].
    rewrite Hc in *. simpl in Hk4. left. split; [| eauto].
    cbn [snd]. congruence.
Qed.

(** C3: [encode] first calls [write_videofile] with libx264, aac, 192k,
    forced stereo and forced 44100 Hz.  When that call raises, [encode]
    makes exactly one more call, with libmp3lame and the forced stereo
    alone among the ffmpeg parameters; when that one raises too, no other
    call follows and its exception leaves [encode], and with it
    [create_video].  When the first call succeeds there is no second
    call. *)
Theorem encode_fallback_once (E : Env) (tl : timeline) (path : string)
    (w : world) :
  primary_cfg =
    EncoderCfg 24 "libx264" "aac" "192k"
               ["-strict"; "-2"; "-ac"; "2"; "-ar"; "44100"]
  ∧ fallback_cfg = EncoderCfg 24 "libx264" "libmp3lame" "192k" ["-ac"; "2"]
  ∧ (raised (first_attempt E tl path w) = None →
       fst (encode E tl path w) = Ok tt
       ∧ encodes (snd (encode E tl path w)) = encodes w ++ [primary_cfg])
  ∧ (∀ e1, raised (first_attempt E tl path w) = Some e1 →
       encodes (snd (encode E tl path w)) =
         encodes w ++ [primary_cfg; fallback_cfg]
       ∧ (raised (second_attempt E tl path w e1) = None →
            fst (encode E tl path w) = Ok tt)
       ∧ (∀ e2, raised (second_attempt E tl path w e1) = Some e2 →
            fst (encode E tl path w) = Raise e2))
  ∧ (∀ qa_pairs output_dir w0 e1 e2,
       (∀ w tl p, raised (write_videofile E w tl p primary_cfg) = Some e1) →
       (∀ w tl p, raised (write_videofile E w tl p fallback_cfg) = Some e2) →
       (encodes (snd (create_video E qa_pairs output_dir w0)) = encodes w0
        ∧ ∃ e, fst (create_video E qa_pairs output_dir w0) = Raise e)
       ∨ (encodes (snd (create_video E qa_pairs output_dir w0)) =
            encodes w0 ++ [primary_cfg; fallback_cfg]
          ∧ fst (create_video E qa_pairs output_dir w0) = Raise e2)).
Proof.
  split_and!; [done | done | | |].
  - intros H. rewrite encode_run, H. split; [done |].
    cbn [snd]. by rewrite encodes_wrote.
  - intros e1 H. rewrite encode_run, H. cbn [fst snd]. split_and!.
    + by rewrite encodes_wrote, encodes_before_second.
    + by intros ->.
    + by intros e2 ->.
  - intros qa_pairs output_dir w0 e1 e2 H1 H2.
    by apply (create_video_encoder_fails E qa_pairs output_dir w0 e1 e2).
Qed.

Example encode_both_fail :
  let r := encode (Demo.make_env Demo.speak Demo.encoder_broken)
                  (Timeline [] 0) "output/qa_video.mp4" Demo.empty_world in
  fst r = Raise (OSError "No space left on device")
  ∧ encodes (snd r) = [primary_cfg; fallback_cfg]
  ∧ fs (snd r) !! "output/qa_video.mp4" = None.
Proof. vm_compute. done. Qed.

Example encode_fallback_succeeds :
  let r := encode (Demo.make_env Demo.speak Demo.encoder_no_aac)
                  (Timeline [] 0) "output/qa_video.mp4" Demo.empty_world in
  fst r = Ok tt
  ∧ encodes (snd r) = [primary_cfg; fallback_cfg]
  ∧ is_Some (fs (snd r) !! "output/qa_video.mp4").
Proof. vm_compute. split_and!; [done | done | by eexists]. Qed.

Example encode_primary_succeeds :
  let r := encode Demo.env (Timeline [] 0) "output/qa_video.mp4"
                  Demo.empty_world in
  fst r = Ok tt ∧ encodes (snd r) = [primary_cfg].
Proof. vm_compute. done. Qed.

(** ** The command: [main] on a table without data rows *)

(** C6, as the code has it: for a table that has only its header row under
    every encoding that decodes it, the reader exhausts the encodings and
    raises, so [main] reports ["Error: Could not read CSV file with any
    encoding"]; the branch that prints ["No Q&A pairs found in CSV file"]
    is not taken.  No file or directory is created and no encoding is
    started. *)
Theorem main_header_only (E : Env) (csv : string) (f : file) (w : world) :
  sd_play E (printed w [MsgTestingAudioSystem]) 44100 44100 = None →
  fs w !! csv = Some f →
  (∀ enc, enc ∈ encodings →
     as_csv f enc = Raise UnicodeDecodeError
     ∨ ∃ header, as_csv f enc = Ok [header]) →
  ∃ msgs,
    main E csv w = (Ok tt, printed w msgs)
    ∧ msgs = ([MsgTestingAudioSystem; MsgAudioSystemOk; MsgReadingCsv]
              ++ map MsgTrying encodings
              ++ [MsgError (ValueError
                              "Could not read CSV file with any encoding")])
    ∧ (MsgNoPairs ∉ msgs)
    ∧ fs (printed w msgs) = fs w
    ∧ dirs (printed w msgs) = dirs w
    ∧ encodes (printed w msgs) = encodes w.
Proof.
  intros Hplay Hf Hheader. eexists. split_and!; [| reflexivity | | done..].
  - unfold main, try_except. rewrite bind_run, print_run.
    rewrite bind_run. unfold get at 1. rewrite bind_run, Hplay.
    unfold check, ret at 1. rewrite bind_run, print_run, printed_printed.
    rewrite bind_run. unfold get at 1.
    assert (path_exists
              (printed w ([MsgTestingAudioSystem] ++ [MsgAudioSystemOk])) csv
            = true) as ->.
    { unfold path_exists. rewrite fs_printed, Hf.
      rewrite bool_decide_eq_true_2 by by eexists. done. }
    cbn [negb]. rewrite bind_run, print_run, printed_printed.
    rewrite bind_run. unfold read_csv_with_encoding.
    destruct (read_csv_loop_exhausted csv f encodings
                (printed w (([MsgTestingAudioSystem] ++ [MsgAudioSystemOk])
                            ++ [MsgReadingCsv])))
      as (msgs & -> & ->).
    + by rewrite fs_printed.
    + intros enc Hin. destruct (Hheader enc Hin) as [? | [header ?]].
      * by left.
      * right. exists [header]. split; [done | simpl; lia].
    + rewrite print_run, !printed_printed. reflexivity.
  - unfold encodings. cbn [app map].
    repeat (apply not_elem_of_cons; split; [discriminate |]).
    apply not_elem_of_nil.
Qed.

Lemma main_header_only_witness :
  ∃ msgs,
    main Demo.env "qa.csv" (Demo.world_with "qa.csv" Demo.header_only_csv)
    = (Ok tt, printed (Demo.world_with "qa.csv" Demo.header_only_csv) msgs)
    ∧ last msgs =
      Some (MsgError (ValueError "Could not read CSV file with any encoding"))
    ∧ MsgNoPairs ∉ msgs.
Proof.
  destruct (main_header_only Demo.env "qa.csv" Demo.header_only_csv
              (Demo.world_with "qa.csv" Demo.header_only_csv))
    as (msgs & Hrun & Hmsgs & Hno & _).
  - reflexivity.
  - vm_compute. reflexivity.
  - intros enc _. right. by exists ["question"; "answer"].
  - exists msgs. split_and!; [exact Hrun | by rewrite Hmsgs | exact Hno].
Defined.

Lemma read_csv_first_encoding_witness :
  ∃ msgs,
    read_csv_with_encoding "qa.csv"
      (Demo.world_with "qa.csv" Demo.cp1252_csv) =
    (Ok [["What is 2+2?"; "4"]; ["Capital of France?"; "Paris"]],
     printed (Demo.world_with "qa.csv" Demo.cp1252_csv) msgs).
Proof.
  destruct (read_csv_first_encoding "qa.csv" Demo.cp1252_csv
              (Demo.world_with "qa.csv" Demo.cp1252_csv))
    as (_ & Hfirst & _).
  - vm_compute. reflexivity.
  - apply (Hfirst ["utf-8"; "utf-8-sig"] "latin1" ["cp1252"]
             [["question"; "answer"]; ["What is 2+2?"; "4"];
              ["Capital of France?"; "Paris"]]).
    + reflexivity.
    + intros enc Henc. left.
      apply elem_of_cons in Henc as [-> | Henc]; [reflexivity |].
      apply elem_of_cons in Henc as [-> | Henc]; [reflexivity |].
      by apply elem_of_nil in Henc.
    + reflexivity.
    + simpl. lia.
Defined.

(** ** The command: the ["No Q&A pairs found"] branch *)

Lemma never_prints_silent {A} m0 (m : M A) :
  (∀ w, stdout (snd (m w)) = stdout w) → never_prints m0 m.
Proof.
  intros H w. exists []. rewrite H, app_nil_r. split; [done |].
  apply not_elem_of_nil.
Qed.

Lemma never_prints_ret {A} m0 (a : A) : never_prints m0 (ret a).
Proof. by apply never_prints_silent. Qed.
Lemma never_prints_raise {A} m0 e : never_prints m0 (@raise A e).
Proof. by apply never_prints_silent. Qed.
Lemma never_prints_get m0 : never_prints m0 get.
Proof. by apply never_prints_silent. Qed.
Lemma never_prints_set_fs m0 f : never_prints m0 (set_fs f).
Proof. by apply never_prints_silent. Qed.
Lemma never_prints_set_dirs m0 f : never_prints m0 (set_dirs f).
Proof. by apply never_prints_silent. Qed.
Lemma never_prints_log_encode m0 cfg : never_prints m0 (log_encode cfg).
Proof. by apply never_prints_silent. Qed.
Lemma never_prints_check m0 o : never_prints m0 (check o).
Proof. apply never_prints_silent. by destruct o. Qed.
Lemma never_prints_lift {A} m0 (r : result A) : never_prints m0 (lift r).
Proof. apply never_prints_silent. by destruct r. Qed.
Lemma never_prints_perform m0 path o : never_prints m0 (perform path o).
Proof.
  apply never_prints_silent. intros w. rewrite perform_run.
  unfold wrote. by destruct (left_file o).
Qed.

Lemma never_prints_print m0 m : m ≠ m0 → never_prints m0 (print m).
Proof.
  intros Hne w. exists [m]. split; [done |].
  apply not_elem_of_cons. split; [done | apply not_elem_of_nil].
Qed.

(** Sequencing, with what is known of the value passed on. *)
Lemma never_prints_bind_post {A B} m0 (P : A → Prop) (m : M A)
    (k : A → M B) :
  (∀ w a w', m w = (Ok a, w') → P a) →
  never_prints m0 m → (∀ a, P a → never_prints m0 (k a)) →
  never_prints m0 (bind m k).
Proof.
  intros HP Hm Hk w. unfold bind.
  destruct (Hm w) as (msgs & Hout & Hno).
  destruct (m w) as [[a | e] w1] eqn:Hrun; simpl in Hout.
  - destruct (Hk a (HP _ _ _ Hrun) w1) as (msgs' & Hout' & Hno').
    exists (msgs ++ msgs'). rewrite Hout', Hout, <- app_assoc.
    split; [done |]. by apply not_elem_of_app.
  - by exists msgs.
Qed.

Lemma never_prints_bind {A B} m0 (m : M A) (k : A → M B) :
  never_prints m0 m → (∀ a, never_prints m0 (k a)) →
  never_prints m0 (bind m k).
Proof.
  intros Hm Hk. apply (never_prints_bind_post m0 (λ _, True)); auto.
Qed.

Lemma never_prints_try_except {A} m0 (body : M A) handler :
  never_prints m0 body → (∀ e, never_prints m0 (handler e)) →
  never_prints m0 (try_except body handler).
Proof.
  intros Hm Hk w. unfold try_except.
  destruct (Hm w) as (msgs & Hout & Hno).
  destruct (body w) as [[a | e] w1]; simpl in Hout.
  - by exists msgs.
  - destruct (Hk e w1) as (msgs' & Hout' & Hno').
    exists (msgs ++ msgs'). rewrite Hout', Hout, <- app_assoc.
    split; [done |]. by apply not_elem_of_app.
Qed.

Lemma never_prints_try_finally {A} m0 (body : M A) cleanup :
  never_prints m0 body → never_prints m0 cleanup →
  never_prints m0 (try_finally body cleanup).
Proof.
  intros Hm Hc w. unfold try_finally.
  destruct (Hm w) as (msgs & Hout & Hno).
  destruct (body w) as [r w1]; simpl in Hout.
  destruct (Hc w1) as (msgs' & Hout' & Hno').
  exists (msgs ++ msgs').
  destruct (cleanup w1) as [[[] | e] w2]; simpl in *;
    rewrite Hout', Hout, <- app_assoc;
    (split; [done | by apply not_elem_of_app]).
Qed.

Create HintDb quiet discriminated.

Global Hint Resolve never_prints_ret never_prints_raise never_prints_get
  never_prints_set_fs never_prints_set_dirs never_prints_log_encode
  never_prints_check never_prints_lift never_prints_perform : quiet.

(** Take a computation apart; a [print] of another message is harmless. *)
Ltac quiet :=
  repeat first
    [ progress intros
    | apply never_prints_bind
    | apply never_prints_try_except
    | apply never_prints_try_finally
    | apply never_prints_print; discriminate
    | solve [auto with quiet]
    | match goal with
      | |- never_prints _ (if ?b then _ else _) => destruct b
      | |- never_prints _ (match ?x with _ => _ end) => destruct x
      | |- never_prints _ (let '(_, _) := ?x in _) => destruct x
      end ].

Section NoPairs.

Variable E : Env.

Lemma quiet_open_file path : never_prints MsgNoPairs (open_file path).
Proof. unfold open_file. quiet. Qed.

Lemma quiet_mkdir path : never_prints MsgNoPairs (mkdir_exist_ok path).
Proof. unfold mkdir_exist_ok. quiet. Qed.

Lemma quiet_rmdir path : never_prints MsgNoPairs (rmdir path).
Proof. unfold rmdir. quiet. Qed.

Lemma quiet_unlink path : never_prints MsgNoPairs (unlink E path).
Proof. unfold unlink. quiet. Qed.

Hint Resolve quiet_open_file quiet_mkdir quiet_rmdir quiet_unlink : quiet.

Lemma quiet_unlink_existing files :
  never_prints MsgNoPairs (unlink_existing E files).
Proof. induction files; cbn [unlink_existing]; quiet. Qed.

Lemma quiet_unlink_each files :
  never_prints MsgNoPairs (unlink_each E files).
Proof. induction files; cbn [unlink_each]; quiet. Qed.

Hint Resolve quiet_unlink_existing quiet_unlink_each : quiet.

Lemma quiet_create_audio_file text path :
  never_prints MsgNoPairs (create_audio_file E text path).
Proof. unfold create_audio_file, sf_read. quiet. Qed.

Lemma quiet_AudioFileClip path :
  never_prints MsgNoPairs (AudioFileClip path).
Proof. unfold AudioFileClip. quiet. Qed.

Hint Resolve quiet_create_audio_file quiet_AudioFileClip : quiet.

Lemma quiet_create_qa_clip question answer temp_dir qa_index :
  never_prints MsgNoPairs
    (create_qa_clip E question answer temp_dir qa_index).
Proof. unfold create_qa_clip. quiet. Qed.

Hint Resolve quiet_create_qa_clip : quiet.

Lemma quiet_process_pairs n temp_path rows i all_clips :
  never_prints MsgNoPairs (process_pairs E n temp_path i rows all_clips).
Proof.
  revert i all_clips. induction rows as [|row rows IH]; intros i all_clips.
  - cbn [process_pairs]. quiet.
  - destruct row as [|q [|a [|x row]]]; cbn [process_pairs]; quiet.
Qed.

Hint Resolve quiet_process_pairs : quiet.

Lemma quiet_create_video qa_pairs output_dir :
  never_prints MsgNoPairs (create_video E qa_pairs output_dir).
Proof.
  unfold create_video, build_timeline, concatenate_videoclips, encode,
    run_write_videofile, cleanup_temp.
  quiet.
Qed.

Lemma quiet_test_video path : never_prints MsgNoPairs (test_video path).
Proof. unfold test_video. quiet. Qed.

Lemma quiet_read_csv_loop path encs :
  never_prints MsgNoPairs (read_csv_loop path encs).
Proof.
  induction encs as [|enc encs IH]; cbn [read_csv_loop]; [quiet |].
  assert (never_prints MsgNoPairs (read_csv_attempt path enc)) as Hatt.
  { unfold read_csv_attempt. quiet. }
  intros w. destruct (Hatt w) as (msgs & Hout & Hno).
  destruct (read_csv_attempt path enc w) as [[[rows|] | e] w1];
    simpl in Hout.
  - by exists msgs.
  - destruct (IH w1) as (msgs' & Hout' & Hno').
    exists (msgs ++ msgs'). rewrite Hout', Hout, <- app_assoc.
    split; [done |]. by apply not_elem_of_app.
  - destruct (IH w1) as (msgs' & Hout' & Hno').
    destruct e; try by exists msgs.
    exists (msgs ++ msgs'). rewrite Hout', Hout, <- app_assoc.
    split; [done |]. by apply not_elem_of_app.
Qed.

(** The reader returns at least one row or raises, so [main] never takes
    the branch that prints ["No Q&A pairs found in CSV file"]. *)
Lemma main_never_prints_no_pairs csv : never_prints MsgNoPairs (main E csv).
Proof.
  unfold main. apply never_prints_try_except; [| quiet].
  do 5 (apply never_prints_bind; [quiet | intros]).
  match goal with |- never_prints _ (if ?b then _ else _) => destruct b end;
    [quiet |].
  apply never_prints_bind; [quiet | intros _].
  apply (never_prints_bind_post _ (λ rows, rows ≠ [])).
  - intros w rows w' H. by eapply read_csv_loop_nonempty.
  - apply quiet_read_csv_loop.
  - intros [|row rows] Hne; [done |].
    apply never_prints_bind; [apply quiet_create_video | intros].
    pose proof quiet_test_video. quiet.
Qed.

End NoPairs.

(** * Further properties of the program *)

(** ** [main] *)

(** X2: when the path given on the command line does not exist, [main]
    prints ["Error: CSV file not found"] after the audio self-test and
    stops there: nothing is read, synthesised, created or encoded. *)
Theorem main_missing_csv (E : Env) (csv : string) (w : world) :
  sd_play E (printed w [MsgTestingAudioSystem]) 44100 44100 = None →
  fs w !! csv = None → csv ∉ dirs w →
  main E csv w =
  (Ok tt,
   printed w [MsgTestingAudioSystem; MsgAudioSystemOk; MsgCsvNotFound csv]).
Proof.
  intros Hplay Hf Hd. unfold main, try_except.
  rewrite bind_run, print_run, bind_run. unfold get at 1.
  rewrite bind_run, Hplay. unfold check, ret at 1.
  rewrite bind_run, print_run, printed_printed, bind_run. unfold get at 1.
  assert (path_exists
            (printed w ([MsgTestingAudioSystem] ++ [MsgAudioSystemOk])) csv
          = false) as ->.
  { unfold path_exists. rewrite fs_printed, Hf.
    rewrite bool_decide_eq_false_2 by (by intros [??]).
    by rewrite bool_decide_eq_false_2. }
  cbn [negb]. by rewrite print_run, printed_printed.
Qed.

Lemma main_missing_csv_witness :
  main Demo.env "missing.csv" Demo.empty_world =
  (Ok tt,
   printed Demo.empty_world
     [MsgTestingAudioSystem; MsgAudioSystemOk; MsgCsvNotFound "missing.csv"]).
Proof.
  apply (main_missing_csv Demo.env "missing.csv" Demo.empty_world).
  - reflexivity.
  - reflexivity.
  - apply not_elem_of_empty.
Defined.

(** X3: when the audio self-test raises, [main] reports that error and
    does nothing else: the command-line path is not even looked at. *)
Theorem main_self_test_fails (E : Env) (csv : string) (w : world) (e : exn) :
  sd_play E (printed w [MsgTestingAudioSystem]) 44100 44100 = Some e →
  main E csv w = (Ok tt, printed w [MsgTestingAudioSystem; MsgError e]).
Proof.
  intros Hplay. unfold main, try_except.
  rewrite bind_run, print_run, bind_run. unfold get at 1.
  rewrite bind_run, Hplay. unfold check, raise.
  cbn beta iota. by rewrite print_run, printed_printed.
Qed.

Lemma main_self_test_fails_witness :
  main Extra.env_no_device "qa.csv"
       (Demo.world_with "qa.csv" Demo.cp1252_csv) =
  (Ok tt,
   printed (Demo.world_with "qa.csv" Demo.cp1252_csv)
     [MsgTestingAudioSystem;
      MsgError (LibraryError "Error querying device -1")]).
Proof.
  apply (main_self_test_fails Extra.env_no_device "qa.csv"
           (Demo.world_with "qa.csv" Demo.cp1252_csv)).
  reflexivity.
Defined.

(** X4: [main] never prints ["No Q&A pairs found in CSV file"]: the reader
    returns at least one row or raises, so the [if not qa_pairs] branch is
    dead code. *)
Theorem main_no_pairs_message_unreachable (E : Env) (csv : string)
    (w : world) :
  ∃ msgs, stdout (snd (main E csv w)) = stdout w ++ msgs
          ∧ MsgNoPairs ∉ msgs.
Proof. apply main_never_prints_no_pairs. Qed.

(** ** [read_csv_with_encoding] *)

Lemma read_csv_loop_ok_inv path encs w rows w' :
  read_csv_loop path encs w = (Ok rows, w') →
  ∃ f pre enc post data,
    fs w !! path = Some f
    ∧ encs = pre ++ enc :: post
    ∧ (∀ enc', enc' ∈ pre → falls_through f enc')
    ∧ as_csv f enc = Ok data ∧ (1 < List.length data)%nat
    ∧ rows = tail data
    ∧ w' = printed w (map MsgTrying pre ++ [MsgTrying enc; MsgCsvRead enc]).
Proof.
  revert w. induction encs as [|enc encs IH]; intros w; [done |].
  cbn [read_csv_loop].
  destruct (fs w !! path) as [f|] eqn:Hf.
  - rewrite (read_csv_attempt_run _ _ f) by done.
    assert (read_csv_loop path encs (printed w [MsgTrying enc]) = (Ok rows, w')
            → falls_through f enc →
            ∃ f0 pre enc0 post data,
              Some f = Some f0 ∧ enc :: encs = pre ++ enc0 :: post
              ∧ (∀ enc', enc' ∈ pre → falls_through f0 enc')
              ∧ as_csv f0 enc0 = Ok data ∧ (1 < List.length data)%nat
              ∧ rows = tail data
              ∧ w' = printed w (map MsgTrying pre
                                ++ [MsgTrying enc0; MsgCsvRead enc0]))
      as Hnext.
    { intros Hrun Hft.
      apply IH in Hrun
        as (f0 & pre & enc0 & post & data & Hf0 & -> & Hpre & ? & ? & ? & ->).
      rewrite fs_printed, Hf in Hf0. injection Hf0 as <-.
      exists f, (enc :: pre), enc0, post, data.
      split_and!; [done | done | | done.. |].
      - intros enc' [-> | ?]%elem_of_cons; auto.
      - by rewrite printed_printed. }
    destruct (as_csv f enc) as [data | e] eqn:Hcsv.
    + destruct (1 <? List.length data)%nat eqn:Hlen.
      * intros [= <- <-]. apply Nat.ltb_lt in Hlen.
        exists f, [], enc, encs, data.
        split_and!; try done. by intros ? ?%elem_of_nil.
      * intros Hrun. apply Hnext; [done |]. right. exists data.
        split; [done |]. by apply Nat.ltb_ge.
    + destruct e; try done. intros Hrun. apply Hnext; [done | by left].
  - unfold read_csv_attempt, open_file. rewrite bind_run. unfold get at 1.
    rewrite bind_run, Hf. done.
Qed.

(** X5: whatever the reader returns is the table of an encoding of the
    list without its first row: the file exists, that encoding decoded it
    to more than one row, every encoding before it failed to decode or
    gave at most one row, and the rows returned are never empty.  The
    reader prints one ["Trying ..."] per encoding tried and nothing else
    changes. *)
Theorem read_csv_result_sound (path : string) (w : world)
    (rows : list (list string)) (w' : world) :
  read_csv_with_encoding path w = (Ok rows, w') →
  rows ≠ []
  ∧ ∃ f pre enc post data,
      fs w !! path = Some f
      ∧ encodings = pre ++ enc :: post
      ∧ (∀ enc', enc' ∈ pre →
           as_csv f enc' = Raise UnicodeDecodeError
           ∨ ∃ d, as_csv f enc' = Ok d ∧ (List.length d ≤ 1)%nat)
      ∧ as_csv f enc = Ok data
      ∧ data = hd [] data :: rows
      ∧ w' = printed w (map MsgTrying pre ++ [MsgTrying enc; MsgCsvRead enc]).
Proof.
  intros Hrun. split; [by eapply read_csv_loop_nonempty |].
  apply read_csv_loop_ok_inv in Hrun
    as (f & pre & enc & post & data & ? & ? & ? & ? & Hlen & -> & ->).
  exists f, pre, enc, post, data. split_and!; try done.
  destruct data; [simpl in Hlen; lia | done].
Qed.

Lemma read_csv_result_sound_witness :
  ∃ rows w',
    read_csv_with_encoding "qa.csv"
      (Demo.world_with "qa.csv" Demo.cp1252_csv) = (Ok rows, w')
    ∧ rows ≠ [].
Proof.
  eexists _, _. split; [vm_compute; reflexivity |].
  eapply (read_csv_result_sound "qa.csv"
            (Demo.world_with "qa.csv" Demo.cp1252_csv)).
  vm_compute. reflexivity.
Defined.

(** X6: an exception other than [UnicodeDecodeError] (a [csv.Error], an
    I/O error) is not caught by the loop: it leaves the reader at once and
    the encodings after it are never tried. *)
Theorem read_csv_other_exception (path : string) (f : file) (w : world)
    (pre : list string) (enc : string) (post : list string) (e : exn) :
  fs w !! path = Some f →
  encodings = pre ++ enc :: post →
  (∀ enc', enc' ∈ pre →
     as_csv f enc' = Raise UnicodeDecodeError
     ∨ ∃ d, as_csv f enc' = Ok d ∧ (List.length d ≤ 1)%nat) →
  as_csv f enc = Raise e → e ≠ UnicodeDecodeError →
  read_csv_with_encoding path w =
  (Raise e, printed w (map MsgTrying pre ++ [MsgTrying enc])).
Proof.
  intros Hf Hsplit Hpre Henc Hne. unfold read_csv_with_encoding.
  rewrite Hsplit. clear Hsplit. revert w Hf.
  induction pre as [|p pre IH]; intros w Hf.
  - cbn [app read_csv_loop map]. rewrite (read_csv_attempt_run _ _ f) by done.
    rewrite Henc. by destruct e.
  - cbn [app map].
    rewrite (read_csv_attempt_falls_through _ _ f)
      by (done || apply Hpre; by left).
    rewrite IH; [| by intros ??; apply Hpre; right | done].
    by rewrite printed_printed.
Qed.

Lemma read_csv_other_exception_witness :
  read_csv_with_encoding "qa.csv" (Demo.world_with "qa.csv" Extra.nul_csv) =
  (Raise (LibraryError "line contains NUL"),
   printed (Demo.world_with "qa.csv" Extra.nul_csv) [MsgTrying "utf-8"]).
Proof.
  apply (read_csv_other_exception "qa.csv" Extra.nul_csv
           (Demo.world_with "qa.csv" Extra.nul_csv)
           [] "utf-8" ["utf-8-sig"; "latin1"; "cp1252"]).
  - vm_compute. reflexivity.
  - reflexivity.
  - by intros ? ?%elem_of_nil.
  - reflexivity.
  - discriminate.
Defined.

Lemma read_csv_loop_frame path encs w :
  ∃ msgs, snd (read_csv_loop path encs w) = printed w msgs.
Proof.
  revert w. induction encs as [|enc encs IH]; intros w.
  - exists []. by rewrite printed_nil.
  - cbn [read_csv_loop].
    destruct (fs w !! path) as [f|] eqn:Hf.
    + rewrite (read_csv_attempt_run _ _ f) by done.
      destruct (IH (printed w [MsgTrying enc])) as [msgs Hmsgs].
      rewrite printed_printed in Hmsgs.
      destruct (as_csv f enc) as [data | e].
      * destruct (1 <? List.length data)%nat; by eexists.
      * destruct e; by eexists.
    + unfold read_csv_attempt, open_file. rewrite bind_run. unfold get at 1.
      rewrite bind_run, Hf. exists []. by rewrite printed_nil.
Qed.

(** X7: the reader only reads: whatever it returns or raises, the files,
    the directories and the encoder log are as before; and for a path
    that is not a file it raises the error of [open] without printing
    anything. *)
Theorem read_csv_leaves_world (path : string) (w : world) :
  fs (snd (read_csv_with_encoding path w)) = fs w
  ∧ dirs (snd (read_csv_with_encoding path w)) = dirs w
  ∧ encodes (snd (read_csv_with_encoding path w)) = encodes w
  ∧ (fs w !! path = None →
     read_csv_with_encoding path w =
     (Raise (OSError "No such file or directory"), w)).
Proof.
  unfold read_csv_with_encoding.
  destruct (read_csv_loop_frame path encodings w) as [msgs ->].
  split_and!; [done.. |].
  intros Hf. unfold encodings. cbn [read_csv_loop].
  unfold read_csv_attempt, open_file. rewrite bind_run. unfold get at 1.
  by rewrite bind_run, Hf.
Qed.

(** ** [create_audio_file] *)

(** X8: [create_audio_file] raises exactly when the engine does (at
    initialisation or while speaking).  Whatever goes wrong afterwards, a
    missing or undecodable file or a failing playback, is caught and
    reported as [False], never raised. *)
Theorem create_audio_file_raises_iff (E : Env) (text path : string)
    (w : world) (e : exn) :
  fst (create_audio_file E text path w) = Raise e
  ↔ engine_init E w = Some e
    ∨ (engine_init E w = None
       ∧ raised (engine_run E (before_engine w text) text path) = Some e).
Proof.
  rewrite create_audio_file_run.
  destruct (engine_init E w) as [e0|].
  { simpl. split; [intros [= ->]; by left | ].
    intros [[= ->] | [? _]]; done. }
  cbn zeta.
  destruct (raised (engine_run E (before_engine w text) text path)) as [e0|].
  { simpl. split; [intros [= ->]; by right |].
    intros [? | [_ [= ->]]]; done. }
  assert (∀ X : result bool * world, fst X ≠ Raise e →
            fst X = Raise e
            ↔ @None exn = Some e ∨ @None exn = None ∧ @None exn = Some e)
    as Hno.
  { intros X HX. split; [done |]. intros [? | [_ ?]]; done. }
  destruct (fs (after_engine E text path w) !! path) as [f|]; [| by apply Hno].
  destruct (as_soundfile f) as [[frames sr] | e0]; [| by apply Hno].
  destruct (decide (sr = 0)); [by apply Hno |].
  destruct (sd_play E _ _ _); by apply Hno.
Qed.

(** X9: [create_audio_file] touches no file but the one it is asked to
    write, and no directory; it starts no encoding. *)
Theorem create_audio_file_frame (E : Env) (text path : string) (w : world) :
  (∀ p, p ≠ path →
        fs (snd (create_audio_file E text path w)) !! p = fs w !! p)
  ∧ dirs (snd (create_audio_file E text path w)) = dirs w
  ∧ encodes (snd (create_audio_file E text path w)) = encodes w.
Proof.
  split_and!.
  - intros p Hne.
    destruct (create_audio_file E text path w) as [r w'] eqn:Hrun.
    by eapply create_audio_file_other.
  - rewrite create_audio_file_run.
    assert (dirs (after_engine E text path w) = dirs w) as Hafter.
    { unfold after_engine, wrote. by destruct (left_file _). }
    destruct (engine_init E w); [done |]. cbn zeta.
    destruct (raised _); [done |].
    destruct (fs (after_engine E text path w) !! path) as [f|]; [| done].
    destruct (as_soundfile f) as [[frames sr] | e0]; [| done].
    destruct (decide (sr = 0)); [done |].
    by destruct (sd_play E _ _ _).
  - apply keeps_create_audio_file.
Qed.

(** ** [create_qa_clip] *)

(** X10: when the question cannot be synthesised or validated,
    [create_qa_clip] fails without attempting the answer: the world is the
    one the question's attempt left, so the engine was not run again and
    no file of the answer was written. *)
Theorem create_qa_clip_question_fails (E : Env)
    (question answer temp_dir : string) (qa_index : nat) (w : world)
    (r : result bool) (w1 : world) :
  create_audio_file E question (q_path temp_dir qa_index) w = (r, w1) →
  r ≠ Ok true →
  create_qa_clip E question answer temp_dir qa_index w =
    (match r with
     | Ok _ => Raise (RuntimeError "Failed to create or test audio files")
     | Raise e => Raise e
     end, w1)
  ∧ fs w1 !! a_path temp_dir qa_index = fs w !! a_path temp_dir qa_index.
Proof.
  intros Hq Hr. split.
  - rewrite create_qa_clip_run, Hq. by destruct r as [[|] | e].
  - eapply create_audio_file_other; [done |].
    intros H. by apply (q_path_ne_a_path temp_dir qa_index).
Qed.

Lemma create_qa_clip_question_fails_witness :
  ∃ w1,
    create_qa_clip (Demo.make_env Demo.speak_garbled Demo.encoder_ok)
                   "4" "What is 2+2?" "temp" 1 Demo.empty_world =
      (Raise (RuntimeError "Failed to create or test audio files"), w1)
    ∧ fs w1 !! "temp/a_1.wav" = None.
Proof.
  eexists.
  apply (create_qa_clip_question_fails
           (Demo.make_env Demo.speak_garbled Demo.encoder_ok)
           "4" "What is 2+2?" "temp" 1 Demo.empty_world (Ok false)).
  - vm_compute. reflexivity.
  - discriminate.
Defined.

(** X11: once both files are validated and the [try] is entered, both
    temporary files are gone when [create_qa_clip] is left, whether it
    returns its clips or raises (an audio clip that cannot be opened),
    provided [unlink] works and the two paths are not directories. *)
Theorem create_qa_clip_deletes_after_try (E : Env)
    (question answer temp_dir : string) (qa_index : nat) (w w1 w2 : world)
    (r : result (list clip)) (w' : world) :
  (∀ w p, unlink_error E w p = None) →
  create_audio_file E question (q_path temp_dir qa_index) w = (Ok true, w1) →
  create_audio_file E answer (a_path temp_dir qa_index) w1 = (Ok true, w2) →
  q_path temp_dir qa_index ∉ dirs w2 → a_path temp_dir qa_index ∉ dirs w2 →
  create_qa_clip E question answer temp_dir qa_index w = (r, w') →
  fs w' !! q_path temp_dir qa_index = None
  ∧ fs w' !! a_path temp_dir qa_index = None.
Proof.
  intros Hun Hq Ha Hdq Hda Hrun.
  pose proof (create_qa_clip_try_cleans E question answer temp_dir qa_index
                w w1 w2 Hun Hq Ha Hdq Hda) as H.
  by rewrite Hrun in H.
Qed.

Lemma create_qa_clip_deletes_after_try_witness :
  fs (snd (create_qa_clip Demo.env "What is 2+2?" "4" "temp" 1
                          Demo.empty_world)) !! q_path "temp" 1 = None
  ∧ fs (snd (create_qa_clip Demo.env "What is 2+2?" "4" "temp" 1
                            Demo.empty_world)) !! a_path "temp" 1 = None.
Proof.
  eapply (create_qa_clip_deletes_after_try Demo.env "What is 2+2?" "4"
            "temp" 1 Demo.empty_world).
  - reflexivity.
  - apply demo_create_audio_file.
  - apply demo_create_audio_file.
  - apply not_elem_of_empty.
  - apply not_elem_of_empty.
  - apply surjective_pairing.
Defined.

(** The cleanup never changes what [create_qa_clip] returns or raises:
    once both files are validated, the outcome is that of the [try]
    block, whether or not the files could be deleted. *)
Lemma create_qa_clip_outcome_of_try (E : Env)
    (question answer temp_dir : string) (qa_index : nat) (w w1 w2 : world) :
  create_audio_file E question (q_path temp_dir qa_index) w = (Ok true, w1) →
  create_audio_file E answer (a_path temp_dir qa_index) w1 = (Ok true, w2) →
  fst (create_qa_clip E question answer temp_dir qa_index w) =
  fst (compose_clips E question answer temp_dir qa_index w2).
Proof.
  intros Hq Ha. rewrite create_qa_clip_run, Hq, Ha. unfold try_finally.
  destruct (compose_clips E question answer temp_dir qa_index w2) as [r w3].
  by destruct (compose_cleanup_ok E temp_dir qa_index w3) as [w4 ->].
Qed.

(** X12: validation by soundfile does not make a file usable: when both
    files are validated but [AudioFileClip] cannot open one of them,
    [create_qa_clip] raises the error of [AudioFileClip] (not its own
    [RuntimeError]); when it opens both, the four clips are returned.
    Whether the files can then be deleted changes neither outcome. *)
Theorem create_qa_clip_clip_errors (E : Env)
    (question answer temp_dir : string) (qa_index : nat) (w w1 w2 : world)
    (fq fa : file) :
  create_audio_file E question (q_path temp_dir qa_index) w = (Ok true, w1) →
  create_audio_file E answer (a_path temp_dir qa_index) w1 = (Ok true, w2) →
  fs w2 !! q_path temp_dir qa_index = Some fq →
  fs w2 !! a_path temp_dir qa_index = Some fa →
  fst (create_qa_clip E question answer temp_dir qa_index w) =
  match as_audioclip fq, as_audioclip fa with
  | Raise e, _ => Raise e
  | Ok _, Raise e => Raise e
  | Ok dq, Ok da =>
      Ok [Clip (create_text_image (draw_text E) ("Q: " +:+ question)
                                  default_size default_bg white)
               dq (Some (AudioClip (q_path temp_dir qa_index) dq));
          Clip (Image_new default_size black) 0.5%float None;
          Clip (create_text_image (draw_text E) ("A: " +:+ answer)
                                  default_size dark_green white)
               da (Some (AudioClip (a_path temp_dir qa_index) da));
          Clip (Image_new default_size black) 0.5%float None]
  end.
Proof.
  intros Hq Ha Hfq Hfa.
  rewrite (create_qa_clip_outcome_of_try E _ _ _ _ w w1 w2) by done.
  unfold compose_clips. rewrite bind_run, AudioFileClip_run, Hfq.
  destruct (as_audioclip fq) as [dq | e]; [| done].
  rewrite bind_run, AudioFileClip_run, Hfa.
  destruct (as_audioclip fa) as [da | e]; [| done].
  by rewrite bind_run, print_run.
Qed.

Lemma create_qa_clip_clip_errors_witness :
  fst (create_qa_clip Extra.env_half_valid "What is 2+2?" "4" "temp" 1
                      Demo.empty_world) =
  Raise (OSError "MoviePy error: failed to read the duration").
Proof.
  apply (create_qa_clip_clip_errors Extra.env_half_valid "What is 2+2?" "4"
           "temp" 1 Demo.empty_world
           (snd (create_audio_file Extra.env_half_valid "What is 2+2?"
                   (q_path "temp" 1) Demo.empty_world))
           (snd (create_audio_file Extra.env_half_valid "4"
                   (a_path "temp" 1)
                   (snd (create_audio_file Extra.env_half_valid
                           "What is 2+2?" (q_path "temp" 1)
                           Demo.empty_world))))
           Extra.half_valid Extra.half_valid).
  - vm_compute. reflexivity.
  - vm_compute. reflexivity.
  - vm_compute. reflexivity.
  - vm_compute. reflexivity.
Defined.

(** X13: the cleanup stops at the first file it cannot delete: when
    [unlink] raises for the question's file, the answer's file is not
    deleted either, the only trace is the printed warning, and both files
    are still there when [create_qa_clip] is left. *)
Theorem create_qa_clip_unlink_fails (E : Env)
    (question answer temp_dir : string) (qa_index : nat) (w w1 w2 : world)
    (e : exn) :
  create_audio_file E question (q_path temp_dir qa_index) w = (Ok true, w1) →
  create_audio_file E answer (a_path temp_dir qa_index) w1 = (Ok true, w2) →
  (∀ w, unlink_error E w (q_path temp_dir qa_index) = Some e) →
  snd (create_qa_clip E question answer temp_dir qa_index w) =
    printed (snd (compose_clips E question answer temp_dir qa_index w2))
            [MsgWarnDelete e]
  ∧ is_Some (fs (snd (create_qa_clip E question answer temp_dir qa_index w))
                !! q_path temp_dir qa_index)
  ∧ is_Some (fs (snd (create_qa_clip E question answer temp_dir qa_index w))
                !! a_path temp_dir qa_index).
Proof.
  intros Hq Ha Hun.
  assert (is_Some (fs w2 !! q_path temp_dir qa_index)) as Hfq.
  { rewrite (create_audio_file_other E _ _ _ _ _ _ Ha)
      by apply q_path_ne_a_path.
    apply create_audio_file_true in Hq as (f & _ & _ & -> & _). by eexists. }
  assert (is_Some (fs w2 !! a_path temp_dir qa_index)) as Hfa.
  { apply create_audio_file_true in Ha as (f & _ & _ & -> & _). by eexists. }
  rewrite create_qa_clip_run, Hq, Ha. unfold try_finally.
  destruct (compose_clips E question answer temp_dir qa_index w2)
    as [r w3] eqn:Hbody.
  apply compose_clips_world in Hbody as [Hfs _].
  assert (compose_cleanup E temp_dir qa_index w3 =
          (Ok tt, printed w3 [MsgWarnDelete e])) as ->.
  { unfold compose_cleanup, try_except. cbn [unlink_existing].
    rewrite bind_run. unfold get at 1. rewrite bind_run.
    unfold path_exists. rewrite Hfs.
    rewrite bool_decide_eq_true_2 by done. cbn [orb].
    unfold unlink. rewrite bind_run. unfold get at 1. rewrite Hfs.
    destruct Hfq as [fq ->]. by rewrite bind_run, Hun. }
  cbn [snd]. rewrite fs_printed, Hfs. done.
Qed.

Lemma create_qa_clip_unlink_fails_witness :
  is_Some (fs (snd (create_qa_clip Extra.env_locked "What is 2+2?" "4"
                                   "temp" 1 Demo.empty_world))
              !! q_path "temp" 1)
  ∧ is_Some (fs (snd (create_qa_clip Extra.env_locked "What is 2+2?" "4"
                                     "temp" 1 Demo.empty_world))
                !! a_path "temp" 1).
Proof.
  eapply proj2.
  eapply (create_qa_clip_unlink_fails Extra.env_locked "What is 2+2?" "4"
            "temp" 1 Demo.empty_world).
  - vm_compute. reflexivity.
  - vm_compute. reflexivity.
  - reflexivity.
Defined.

(** ** [create_video]: directories and temporary files *)

Create HintDb dirs discriminated.

Lemma dirs_ret {A} (a : A) : keeps_dirs (ret a).
Proof. done. Qed.
Lemma dirs_raise {A} e : keeps_dirs (@raise A e).
Proof. done. Qed.
Lemma dirs_get : keeps_dirs get.
Proof. done. Qed.
Lemma dirs_print m : keeps_dirs (print m).
Proof. done. Qed.
Lemma dirs_set_fs f : keeps_dirs (set_fs f).
Proof. done. Qed.
Lemma dirs_log_encode cfg : keeps_dirs (log_encode cfg).
Proof. done. Qed.
Lemma dirs_check o : keeps_dirs (check o).
Proof. by destruct o. Qed.
Lemma dirs_lift {A} (r : result A) : keeps_dirs (lift r).
Proof. by destruct r. Qed.
Lemma dirs_perform path o : keeps_dirs (perform path o).
Proof.
  intros w. rewrite perform_run. unfold wrote. by destruct (left_file o).
Qed.

Lemma dirs_bind {A B} (m : M A) (k : A → M B) :
  keeps_dirs m → (∀ a, keeps_dirs (k a)) → keeps_dirs (bind m k).
Proof.
  intros Hm Hk w. unfold bind. specialize (Hm w).
  destruct (m w) as [[a | e] w1]; simpl in *; [| done].
  by rewrite Hk.
Qed.

Lemma dirs_try_except {A} (body : M A) handler :
  keeps_dirs body → (∀ e, keeps_dirs (handler e)) →
  keeps_dirs (try_except body handler).
Proof.
  intros Hm Hk w. unfold try_except. specialize (Hm w).
  destruct (body w) as [[a | e] w1]; simpl in *; [done |].
  by rewrite Hk.
Qed.

Lemma dirs_try_finally {A} (body : M A) cleanup :
  keeps_dirs body → keeps_dirs cleanup →
  keeps_dirs (try_finally body cleanup).
Proof.
  intros Hm Hc w. unfold try_finally. specialize (Hm w).
  destruct (body w) as [r w1]. specialize (Hc w1).
  destruct (cleanup w1) as [[[] | e] w2]; simpl in *; congruence.
Qed.

Global Hint Resolve dirs_ret dirs_raise dirs_get dirs_print dirs_set_fs
  dirs_log_encode dirs_check dirs_lift dirs_perform : dirs.

Ltac dirs :=
  repeat first
    [ progress intros
    | apply dirs_bind
    | apply dirs_try_except
    | apply dirs_try_finally
    | solve [auto with dirs]
    | match goal with
      | |- keeps_dirs (if ?b then _ else _) => destruct b
      | |- keeps_dirs (match ?x with _ => _ end) => destruct x
      | |- keeps_dirs (let '(_, _) := ?x in _) => destruct x
      end ].

Section Directories.

Variable E : Env.

Lemma dirs_open_file path : keeps_dirs (open_file path).
Proof. unfold open_file. dirs. Qed.

Lemma dirs_unlink path : keeps_dirs (unlink E path).
Proof. unfold unlink. dirs. Qed.

Hint Resolve dirs_open_file dirs_unlink : dirs.

Lemma dirs_unlink_existing files : keeps_dirs (unlink_existing E files).
Proof. induction files; cbn [unlink_existing]; dirs. Qed.

Hint Resolve dirs_unlink_existing : dirs.

Lemma dirs_create_audio_file text path :
  keeps_dirs (create_audio_file E text path).
Proof. unfold create_audio_file, sf_read. dirs. Qed.

Lemma dirs_AudioFileClip path : keeps_dirs (AudioFileClip path).
Proof. unfold AudioFileClip. dirs. Qed.

Hint Resolve dirs_create_audio_file dirs_AudioFileClip : dirs.

Lemma dirs_create_qa_clip question answer temp_dir qa_index :
  keeps_dirs (create_qa_clip E question answer temp_dir qa_index).
Proof. unfold create_qa_clip. dirs. Qed.

Hint Resolve dirs_create_qa_clip : dirs.

Lemma dirs_process_pairs n temp_path rows i all_clips :
  keeps_dirs (process_pairs E n temp_path i rows all_clips).
Proof.
  revert i all_clips. induction rows as [|row rows IH]; intros i all_clips.
  - cbn [process_pairs]. dirs.
  - destruct row as [|q [|a [|x row]]]; cbn [process_pairs]; dirs.
Qed.

Hint Resolve dirs_process_pairs : dirs.

(** The [try] block of [create_video] creates and removes no directory. *)
Lemma dirs_video_body qa_pairs output_dir :
  keeps_dirs (video_body E qa_pairs output_dir).
Proof.
  unfold video_body, build_timeline, concatenate_videoclips, encode,
    run_write_videofile.
  dirs.
Qed.

Lemma mkdir_exist_ok_run path w :
  mkdir_exist_ok path w =
  if bool_decide (path ∈ dirs w) then (Ok tt, w)
  else if bool_decide (is_Some (fs w !! path))
       then (Raise (OSError "File exists"), w)
       else (Ok tt, World (fs w) ({[path]} ∪ dirs w) (stdout w) (encodes w)).
Proof.
  unfold mkdir_exist_ok. rewrite bind_run. unfold get at 1.
  destruct (bool_decide (path ∈ dirs w)); [done |].
  by destruct (bool_decide (is_Some (fs w !! path))).
Qed.

Lemma mkdir_exist_ok_can path w :
  can_mkdir w path →
  ∃ w1, mkdir_exist_ok path w = (Ok tt, w1)
        ∧ path ∈ dirs w1 ∧ dirs w ⊆ dirs w1 ∧ fs w1 = fs w
        ∧ stdout w1 = stdout w ∧ encodes w1 = encodes w.
Proof.
  intros Hcan. rewrite mkdir_exist_ok_run.
  destruct (decide (path ∈ dirs w)) as [Hin | Hnin].
  - rewrite bool_decide_eq_true_2 by done. by exists w.
  - rewrite bool_decide_eq_false_2 by done.
    destruct Hcan as [? | Hf]; [done |].
    rewrite bool_decide_eq_false_2 by (rewrite Hf; by intros [??]).
    eexists. split; [done |]. cbn [dirs fs stdout encodes].
    split_and!; [set_solver | set_solver | done..].
Qed.

Lemma mkdir_exist_ok_fs path w :
  fs (snd (mkdir_exist_ok path w)) = fs w.
Proof.
  rewrite mkdir_exist_ok_run.
  destruct (bool_decide (path ∈ dirs w)); [done |].
  by destruct (bool_decide (is_Some (fs w !! path))).
Qed.

Lemma unlink_run path w :
  unlink E path w =
  match fs w !! path with
  | Some _ =>
      match unlink_error E w path with
      | Some e => (Raise e, w)
      | None => (Ok tt, World (delete path (fs w)) (dirs w) (stdout w)
                              (encodes w))
      end
  | None => (Raise (OSError "No such file"), w)
  end.
Proof.
  unfold unlink. rewrite bind_run. unfold get at 1.
  destruct (fs w !! path); [| done].
  rewrite bind_run. by destruct (unlink_error E w path).
Qed.

(** The loop [for file in ...: try: file.unlink() except: pass]. *)
Lemma unlink_each_spec files w :
  ∃ w', unlink_each E files w = (Ok tt, w')
        ∧ dirs w' = dirs w ∧ stdout w' = stdout w
        ∧ (∀ p, p ∉ files → fs w' !! p = fs w !! p)
        ∧ (∀ p, fs w !! p = None → fs w' !! p = None)
        ∧ ((∀ w0 p, unlink_error E w0 p = None) →
           ∀ p, p ∈ files → fs w' !! p = None).
Proof.
  revert w. induction files as [|file files IH]; intros w.
  - exists w. split_and!; try done. by intros _ p ?%elem_of_nil.
  - cbn [unlink_each]. rewrite bind_run. unfold try_except.
    rewrite unlink_run.
    assert (∀ w1, dirs w1 = dirs w → stdout w1 = stdout w →
                  (∀ p, p ≠ file → fs w1 !! p = fs w !! p) →
                  (∀ p, fs w !! p = None → fs w1 !! p = None) →
                  ((∀ w0 p, unlink_error E w0 p = None) →
                   fs w1 !! file = None) →
                  ∃ w', unlink_each E files w1 = (Ok tt, w')
                        ∧ dirs w' = dirs w ∧ stdout w' = stdout w
                        ∧ (∀ p, p ∉ file :: files → fs w' !! p = fs w !! p)
                        ∧ (∀ p, fs w !! p = None → fs w' !! p = None)
                        ∧ ((∀ w0 p, unlink_error E w0 p = None) →
                           ∀ p, p ∈ file :: files → fs w' !! p = None))
      as Hstep.
    { intros w1 Hd Hs Hother Hnone Hfile.
      destruct (IH w1) as (w' & -> & Hd' & Hs' & Hother' & Hnone' & Hdel').
      exists w'. split_and!; [done | congruence | congruence | | |].
      - intros p [Hne Hnin]%not_elem_of_cons.
        rewrite Hother' by done. by apply Hother.
      - intros p Hp. by apply Hnone', Hnone.
      - intros Hun p [-> | Hin]%elem_of_cons.
        + by apply Hnone', Hfile.
        + by apply Hdel'. }
    destruct (fs w !! file) as [f|] eqn:Hf.
    + destruct (unlink_error E w file) as [e|] eqn:Hun.
      * apply Hstep; try done. intros H. by rewrite H in Hun.
      * apply Hstep; cbn [dirs stdout fs]; try done.
        -- intros p Hne. by rewrite lookup_delete_ne.
        -- intros p Hp.
           destruct (decide (file = p)) as [-> | Hne];
             [apply lookup_delete_eq | by rewrite lookup_delete_ne].
        -- intros _. apply lookup_delete_eq.
    + apply Hstep; done.
Qed.

Lemma elem_of_glob w dir p :
  p ∈ glob_star_dot_star w dir
  ↔ matches_star_dot_star dir p = true
    ∧ (is_Some (fs w !! p) ∨ p ∈ dirs w).
Proof.
  unfold glob_star_dot_star.
  rewrite list_elem_of_filter, elem_of_app, !elem_of_elements, elem_of_dom.
  done.
Qed.

Lemma rmdir_fs dir w : fs (snd (rmdir dir w)) = fs w.
Proof.
  unfold rmdir. rewrite bind_run. unfold get at 1.
  destruct (bool_decide (dir ∈ dirs w)); [| done].
  by destruct (filter _ _).
Qed.

(** The [finally] block of [create_video]: it never raises, it deletes
    nothing but entries of the directory that match ['*.*'], and when
    [unlink] works it deletes all of those. *)
Lemma cleanup_temp_spec temp_path w :
  ∃ w', cleanup_temp E temp_path w = (Ok tt, w')
        ∧ (∀ p, matches_star_dot_star temp_path p = false →
                fs w' !! p = fs w !! p)
        ∧ ((∀ w0 p, unlink_error E w0 p = None) → temp_path ∈ dirs w →
           ∀ p, matches_star_dot_star temp_path p = true →
                fs w' !! p = None).
Proof.
  unfold cleanup_temp. rewrite bind_run. unfold get at 1.
  destruct (path_exists w temp_path) eqn:Hex.
  - unfold try_except. rewrite bind_run. unfold get at 1. rewrite bind_run.
    destruct (unlink_each_spec (glob_star_dot_star w temp_path) w)
      as (w1 & -> & Hd & Hs & Hother & Hnone & Hdel).
    pose proof (rmdir_fs temp_path w1) as Hrm.
    assert (∀ w', fs w' = fs w1 →
              (∀ p, matches_star_dot_star temp_path p = false →
                    fs w' !! p = fs w !! p)
              ∧ ((∀ w0 p, unlink_error E w0 p = None) → temp_path ∈ dirs w →
                 ∀ p, matches_star_dot_star temp_path p = true →
                      fs w' !! p = None)) as Hdone.
    { intros w' ->. split.
      - intros p Hp. apply Hother. rewrite elem_of_glob.
        intros [? _]. congruence.
      - intros Hun _ p Hp.
        destruct (fs w !! p) as [f|] eqn:Hf.
        + apply Hdel; [done |]. rewrite elem_of_glob. split; [done |].
          left. by rewrite Hf.
        + by apply Hnone. }
    destruct (rmdir temp_path w1) as [[[] | e] w2]; simpl in Hrm.
    + exists w2. split; [done |]. by apply Hdone.
    + rewrite print_run. eexists. split; [done |]. apply Hdone.
      by rewrite fs_printed.
  - exists w. unfold ret. split_and!; [done | done |].
    intros _ Hin. unfold path_exists in Hex.
    rewrite (bool_decide_eq_true_2 (temp_path ∈ dirs w)) in Hex by done.
    by rewrite orb_true_r in Hex.
Qed.

Lemma create_video_run qa_pairs output_dir w :
  create_video E qa_pairs output_dir w =
  (mkdir_exist_ok output_dir ;;
   mkdir_exist_ok "temp" ;;
   try_finally (video_body E qa_pairs output_dir) (cleanup_temp E "temp")) w.
Proof. reflexivity. Qed.

End Directories.

Section Video.

Variable E : Env.

(** What the [try] block of [create_video] does about the encoder. *)
Lemma video_body_cases qa_pairs output_dir w :
  (∃ e w3, build_timeline E qa_pairs "temp" w = (Raise e, w3)
           ∧ video_body E qa_pairs output_dir w = (Raise e, w3)
           ∧ encodes w3 = encodes w)
  ∨ (∃ tl w3, build_timeline E qa_pairs "temp" w = (Ok tl, w3)
       ∧ (encodes (snd (video_body E qa_pairs output_dir w)) =
            encodes w ++ [primary_cfg]
          ∨ encodes (snd (video_body E qa_pairs output_dir w)) =
              encodes w ++ [primary_cfg; fallback_cfg])).
Proof.
  unfold video_body. rewrite bind_run.
  pose proof (keeps_build_timeline E qa_pairs "temp" w) as Hk.
  destruct (build_timeline E qa_pairs "temp" w) as [[tl | e] w3];
    simpl in Hk; [right | left; by exists e, w3].
  exists tl, w3. split; [done |].
  rewrite bind_run, print_run, bind_run.
  set (path := path_join output_dir "qa_video.mp4").
  set (w4 := printed w3 [MsgWriting]).
  pose proof (encode_run E tl path w4) as Henc.
  assert (encodes w4 = encodes w) as Hw4 by done.
  assert (∀ (k : M string) w5,
            encodes (snd (k w5)) = encodes w5 → encodes (snd (k w5)) =
            encodes w5) as _ by done.
  assert (keeps_encodes
            (open_file path ;; print (MsgFileSize path) ;; ret path)) as Hrest.
  { pose proof keeps_open_file. keeps. }
  destruct (raised (first_attempt E tl path w4)) as [e1|].
  - right. rewrite Henc.
    destruct (raised (second_attempt E tl path w4 e1)).
    + cbn [snd]. by rewrite encodes_wrote, encodes_before_second, Hw4.
    + rewrite Hrest.
      by rewrite encodes_wrote, encodes_before_second, Hw4.
  - left. rewrite Henc, Hrest. rewrite encodes_wrote. cbn [encodes logged].
    by rewrite Hw4.
Qed.

(** X14: a run of [create_video] calls the encoder at most twice, first
    with the primary configuration and then, if at all, with the
    fallback; a run that returns a path has called it at least once. *)
Theorem create_video_encoder_calls (qa_pairs : list (list string))
    (output_dir : string) (w : world) :
  ∃ calls,
    encodes (snd (create_video E qa_pairs output_dir w)) = encodes w ++ calls
    ∧ (calls = [] ∨ calls = [primary_cfg]
       ∨ calls = [primary_cfg; fallback_cfg])
    ∧ (∀ path, fst (create_video E qa_pairs output_dir w) = Ok path →
               calls ≠ []).
Proof.
  rewrite create_video_run, bind_run.
  pose proof (keeps_mkdir output_dir w) as Hk1.
  destruct (mkdir_exist_ok output_dir w) as [[[] | e] w1]; simpl in Hk1;
    [| exists []; rewrite app_nil_r; split_and!; [done | by left | done]].
  rewrite bind_run. pose proof (keeps_mkdir "temp" w1) as Hk2.
  destruct (mkdir_exist_ok "temp" w1) as [[[] | e] w2]; simpl in Hk2;
    [| exists []; rewrite app_nil_r; split_and!;
       [cbn [snd]; congruence | by left | done]].
  unfold try_finally.
  pose proof (video_body_cases qa_pairs output_dir w2) as Hcases.
  destruct (video_body E qa_pairs output_dir w2) as [rb w3].
  pose proof (keeps_cleanup_temp E "temp" w3) as Hk3.
  destruct (cleanup_temp_ok E "temp" w3) as [w4 Hc]. rewrite Hc in *.
  simpl in Hk3. cbn [fst snd] in *.
  destruct Hcases as [(e & w5 & _ & [= -> ->] & He) | (tl & w5 & _ & Hcalls)].
  - exists []. rewrite app_nil_r. split_and!; [congruence | by left | done].
  - destruct Hcalls as [Hcalls | Hcalls].
    + exists [primary_cfg].
      split_and!; [congruence | right; by left | done].
    + exists [primary_cfg; fallback_cfg].
      split_and!; [congruence | right; by right | done].
Qed.

Lemma create_video_no_timeline qa_pairs output_dir w :
  (∀ w0 tl w3, build_timeline E qa_pairs "temp" w0 ≠ (Ok tl, w3)) →
  ∃ e, fst (create_video E qa_pairs output_dir w) = Raise e
       ∧ encodes (snd (create_video E qa_pairs output_dir w)) = encodes w.
Proof.
  intros Hno. rewrite create_video_run, bind_run.
  pose proof (keeps_mkdir output_dir w) as Hk1.
  destruct (mkdir_exist_ok output_dir w) as [[[] | e] w1]; simpl in Hk1;
    [| by exists e].
  rewrite bind_run. pose proof (keeps_mkdir "temp" w1) as Hk2.
  destruct (mkdir_exist_ok "temp" w1) as [[[] | e] w2]; simpl in Hk2;
    [| exists e; split; [done | cbn [snd]; congruence]].
  unfold try_finally.
  destruct (video_body_cases qa_pairs output_dir w2)
    as [(e & w5 & _ & -> & He) | (tl & w5 & Hbt & _)];
    [| by apply Hno in Hbt].
  pose proof (keeps_cleanup_temp E "temp" w5) as Hk3.
  destruct (cleanup_temp_ok E "temp" w5) as [w4 Hc]. rewrite Hc in *.
  simpl in Hk3. exists e. split; [done |]. cbn [snd]. congruence.
Qed.

Lemma pair_segments_rows temp_path rows i css :
  Forall2 (pair_segments E temp_path) (zip (seq i (List.length rows)) rows)
          css →
  Forall (λ row, List.length row = 2%nat) rows.
Proof.
  revert i css. induction rows as [|row rows IH]; intros i css H.
  - constructor.
  - cbn [List.length seq zip zip_with] in H.
    apply Forall2_cons_inv_l in H as (cs & css' & Hcs & Hrest & ->).
    constructor; [| by eapply IH].
    destruct Hcs as (q & a & _ & _ & _ & _ & Hrow & _).
    simpl in Hrow. by rewrite Hrow.
Qed.

(** X15: a row that does not have exactly two fields makes
    [create_video] fail, whatever the other rows are, and the encoder is
    never called. *)
Theorem create_video_malformed_row (qa_pairs : list (list string))
    (output_dir : string) (w : world) (row : list string) :
  row ∈ qa_pairs → List.length row ≠ 2%nat →
  ∃ e, fst (create_video E qa_pairs output_dir w) = Raise e
       ∧ encodes (snd (create_video E qa_pairs output_dir w)) = encodes w.
Proof.
  intros Hin Hlen. apply create_video_no_timeline.
  intros w0 tl w3 Hbt. unfold build_timeline in Hbt.
  apply bind_ok_inv in Hbt as (all & w1 & Hall & _).
  apply process_pairs_ok_inv in Hall as (css & _ & Hcss).
  apply pair_segments_rows in Hcss.
  rewrite Forall_forall in Hcss. by apply Hlen, Hcss.
Qed.

(** X16: [create_video] refuses an empty list of pairs: with its two
    directories in place it raises the [ValueError] of
    [concatenate_videoclips], and it never calls the encoder. *)
Theorem create_video_empty (output_dir : string) (w : world) :
  (∃ e, fst (create_video E [] output_dir w) = Raise e
        ∧ encodes (snd (create_video E [] output_dir w)) = encodes w)
  ∧ (can_mkdir w output_dir → can_mkdir w "temp" →
     fst (create_video E [] output_dir w) =
     Raise (ValueError "max() arg is an empty sequence")).
Proof.
  split.
  - apply create_video_no_timeline. intros w0 tl w3. by vm_compute.
  - intros Hout Htemp. rewrite create_video_run, bind_run.
    destruct (mkdir_exist_ok_can output_dir w Hout)
      as (w1 & -> & _ & Hsub & Hfs & _).
    rewrite bind_run.
    destruct (mkdir_exist_ok_can "temp" w1) as (w2 & -> & _).
    { destruct Htemp as [? | ?]; [left; set_solver | right; congruence]. }
    unfold try_finally.
    assert (video_body E [] output_dir w2 =
            (Raise (ValueError "max() arg is an empty sequence"),
             printed w2 [MsgCombining])) as -> by reflexivity.
    by destruct (cleanup_temp_ok E "temp" (printed w2 [MsgCombining]))
      as [w4 ->].
Qed.

End Video.

Lemma create_video_malformed_row_witness :
  ∃ e, fst (create_video Demo.env [["What is 2+2?"; "4"]; ["no answer"]]
                         "output" Demo.empty_world) = Raise e
       ∧ encodes (snd (create_video Demo.env
                         [["What is 2+2?"; "4"]; ["no answer"]]
                         "output" Demo.empty_world)) = [].
Proof.
  apply (create_video_malformed_row Demo.env
           [["What is 2+2?"; "4"]; ["no answer"]] "output" Demo.empty_world
           ["no answer"]).
  - apply elem_of_cons. right. apply elem_of_cons. by left.
  - discriminate.
Defined.

(** X17: whether [create_video] returns or raises, once its two
    directories are in place and [unlink] works it leaves no entry of
    the temporary directory that matches ['*.*']: in particular no
    [q_N.wav] or [a_N.wav] survives a run, not even those a failed pair
    left behind. *)
Theorem create_video_no_temp_files (E : Env) (qa_pairs : list (list string))
    (output_dir : string) (w : world) (p : string) :
  (∀ w0 p0, unlink_error E w0 p0 = None) →
  can_mkdir w output_dir → can_mkdir w "temp" →
  matches_star_dot_star "temp" p = true →
  fs (snd (create_video E qa_pairs output_dir w)) !! p = None.
Proof.
  intros Hun Hout Htemp Hp. rewrite create_video_run, bind_run.
  destruct (mkdir_exist_ok_can output_dir w Hout)
    as (w1 & -> & _ & Hsub & Hfs & _).
  rewrite bind_run.
  destruct (mkdir_exist_ok_can "temp" w1) as (w2 & -> & Hin & _).
  { destruct Htemp as [? | ?]; [left; set_solver | right; congruence]. }
  unfold try_finally.
  pose proof (dirs_video_body E qa_pairs output_dir w2) as Hd.
  destruct (video_body E qa_pairs output_dir w2) as [rb w3]. simpl in Hd.
  destruct (cleanup_temp_spec E "temp" w3) as (w4 & -> & _ & Hdel).
  cbn [snd]. apply Hdel; [done | by rewrite Hd | done].
Qed.

Lemma create_video_no_temp_files_witness :
  fs (snd (create_video (Demo.make_env Demo.speak_garbled Demo.encoder_ok)
                        [["What is 2+2?"; "4"]] "output" Demo.empty_world))
     !! "temp/q_1.wav" = None.
Proof.
  apply (create_video_no_temp_files
           (Demo.make_env Demo.speak_garbled Demo.encoder_ok)
           [["What is 2+2?"; "4"]] "output" Demo.empty_world "temp/q_1.wav").
  - reflexivity.
  - right. reflexivity.
  - right. reflexivity.
  - reflexivity.
Defined.

Lemma strip_prefix_Some pre path rest :
  strip_prefix pre path = Some rest → path = pre +:+ rest.
Proof.
  revert path. induction pre as [|a pre IH]; intros path; simpl.
  - by intros [= ->].
  - destruct path as [|b path]; [done |].
    case_decide; [| done]. subst b. intros H%IH. subst path.
    by rewrite string_app_cons.
Qed.

(** A directory named without any ['/'], other than ['temp'], keeps its
    video out of the reach of the cleanup's [temp_dir.glob('*.*')]. *)
Lemma plain_name_outside_temp (d : string) :
  contains_char "/" d = false → d ≠ "temp" →
  matches_star_dot_star "temp" (path_join d "qa_video.mp4") = false.
Proof.
  intros Hplain Hne. unfold matches_star_dot_star.
  destruct (strip_prefix _ _) as [name|] eqn:Hpre; [| done].
  exfalso. apply strip_prefix_Some in Hpre. unfold path_join in Hpre.
  destruct d as [|c1 [|c2 [|c3 [|c4 [|c5 d]]]]];
    rewrite ?string_app_cons, ?string_app_nil_l in Hpre;
    injection Hpre; intros; subst; done.
Qed.

Lemma create_video_returns (E : Env) (qa_pairs : list (list string))
    (output_dir : string) (w : world) (path : string) (w' : world) :
  create_video E qa_pairs output_dir w = (Ok path, w') →
  path = path_join output_dir "qa_video.mp4"
  ∧ (matches_star_dot_star "temp" path = false → is_Some (fs w' !! path)).
Proof.
  rewrite create_video_run.
  intros ([] & w1 & _ & H)%bind_ok_inv.
  apply bind_ok_inv in H as ([] & w2 & _ & H).
  apply try_finally_ok_inv in H as (w3 & Hbody & Hclean).
  unfold video_body in Hbody.
  apply bind_ok_inv in Hbody as (tl & w4 & _ & H).
  apply bind_ok_inv in H as ([] & w5 & _ & H).
  apply bind_ok_inv in H as ([] & w6 & _ & H).
  apply bind_ok_inv in H as (f & w7 & Hopen & H).
  apply bind_ok_inv in H as ([] & w8 & Hprint & H).
  injection H as <- <-. split; [done |]. intros Hp.
  destruct (cleanup_temp_spec E "temp" w8) as (w9 & Hc & Hother & _).
  rewrite Hclean in Hc. injection Hc as <-.
  rewrite Hother by done. rewrite print_run in Hprint.
  injection Hprint as <-. rewrite fs_printed.
  unfold open_file in Hopen. rewrite bind_run in Hopen.
  unfold get at 1 in Hopen.
  destruct (fs w6 !! path_join output_dir "qa_video.mp4") as [f0|] eqn:Hf;
    [| done].
  injection Hopen as _ <-. by rewrite Hf.
Qed.

(** X18: for an output directory given by a plain name (not empty, not
    ['.'], without any ['/'], such as the default ['output']), the path
    [create_video] returns is [<output_dir>/qa_video.mp4], and the file is
    there when it returns, unless the output directory is the temporary
    directory ['temp'] itself, which the cleanup empties. *)
Theorem create_video_output (E : Env) (qa_pairs : list (list string))
    (output_dir : string) (w : world) (path : string) (w' : world) :
  output_dir ≠ "" → output_dir ≠ "." →
  contains_char "/" output_dir = false →
  create_video E qa_pairs output_dir w = (Ok path, w') →
  path = output_dir +:+ "/qa_video.mp4"
  ∧ (output_dir ≠ "temp" → is_Some (fs w' !! path)).
Proof.
  intros _ _ Hplain [-> Hfile]%create_video_returns.
  split; [done |]. intros Hne. apply Hfile.
  by apply plain_name_outside_temp.
Qed.

Lemma demo_build_timeline w :
  ∃ final_video w',
    build_timeline Demo.env
      [["What is 2+2?"; "4"]; ["Capital of France?"; "Paris"]] "temp" w =
    (Ok final_video, w').
Proof.
  unfold build_timeline. rewrite bind_run.
  destruct (demo_create_qa_clip Demo.encoder_ok
              (printed w [MsgProcessing 1 2])
              (Py.strip "What is 2+2?") (Py.strip "4") "temp" 1)
    as (qa1 & aa1 & w1 & H1).
  rewrite (process_pairs_cons _ _ _ _ _ _ _ _ _ _ w1 H1).
  destruct (demo_create_qa_clip Demo.encoder_ok
              (printed (printed w1 [MsgProgress 1 2]) [MsgProcessing 2 2])
              (Py.strip "Capital of France?") (Py.strip "Paris") "temp" 2)
    as (qa2 & aa2 & w2 & H2).
  rewrite (process_pairs_cons _ _ _ _ _ _ _ _ _ _ w2 H2).
  cbn [process_pairs]. unfold ret at 1. rewrite bind_run, print_run.
  unfold qa_segments at 1. cbn [app concatenate_videoclips].
  unfold ret. by eexists _, _.
Qed.

Lemma demo_create_video :
  ∃ path w',
    create_video Demo.env
      [["What is 2+2?"; "4"]; ["Capital of France?"; "Paris"]]
      "output" Demo.empty_world = (Ok path, w').
Proof.
  rewrite create_video_run, bind_run.
  destruct (mkdir_exist_ok_can "output" Demo.empty_world)
    as (w1 & -> & _ & _ & Hfs1 & _); [by right |].
  rewrite bind_run.
  destruct (mkdir_exist_ok_can "temp" w1) as (w2 & -> & _);
    [right; by rewrite Hfs1 |].
  unfold try_finally, video_body. rewrite bind_run.
  destruct (demo_build_timeline w2) as (tl & w3 & ->).
  rewrite bind_run, print_run, bind_run, encode_run.
  cbn [first_attempt write_videofile Demo.env Demo.make_env Demo.encoder_ok
       raised].
  rewrite bind_run. unfold open_file at 1. rewrite bind_run.
  unfold get at 1. unfold wrote at 1.
  cbn [Demo.encoder_ok left_file fs].
  rewrite lookup_insert_eq. unfold ret at 1.
  rewrite bind_run, print_run. unfold ret.
  match goal with |- context [cleanup_temp Demo.env "temp" ?w0] =>
    destruct (cleanup_temp_ok Demo.env "temp" w0) as [w4 ->] end.
  by eexists _, _.
Qed.

Lemma create_video_output_witness :
  ∃ w',
    create_video Demo.env
      [["What is 2+2?"; "4"]; ["Capital of France?"; "Paris"]]
      "output" Demo.empty_world = (Ok "output/qa_video.mp4", w')
    ∧ is_Some (fs w' !! "output/qa_video.mp4").
Proof.
  destruct demo_create_video as (path & w' & Hrun).
  assert ("output" ≠ "") as Hne by discriminate.
  assert ("output" ≠ ".") as Hdot by discriminate.
  assert ("output" ≠ "temp") as Htemp by discriminate.
  destruct (create_video_output Demo.env _ "output" Demo.empty_world
              path w' Hne Hdot eq_refl Hrun) as [-> Hfile].
  exists w'. split; [exact Hrun |]. exact (Hfile Htemp).
Defined.

(** ** [create_video]: the length of the video *)




(** ** [create_text_image]: more on the layout *)

Lemma layout_from_imap y lines :
  layout_from y lines =
  imap (λ k line, (y + line_height * Z.of_nat k, line)) lines.
Proof.
  revert y. induction lines as [|l lines IH]; intros y; [done |].
  cbn [layout_from imap]. f_equal.
  - f_equal. lia.
  - rewrite IH. apply imap_ext. intros k line _. simpl. f_equal. lia.
Qed.

(** X20: the lines are drawn in order, each by one [draw.text] call at
    x = 60 with the text colour and size 48, the k-th line (from 0) at
    y = 60 + 72 k, onto the frame filled with the background colour; the
    height of the frame is never consulted. *)
Theorem create_text_image_draw_calls
    (dt : image → Z * Z → string → rgb → Z → image)
    (text : string) (size : nat * nat) (bg fg : rgb) :
  create_text_image dt text size bg fg =
  fold_left (λ im p, dt im (60, fst p) (snd p) fg 48)
            (imap (λ k line, (60 + 72 * Z.of_nat k, line))
                  (wrap_lines text size))
            (Image_new size bg).
Proof.
  rewrite create_text_image_layout. unfold text_layout, draw_placed.
  by rewrite layout_from_imap.
Qed.

Lemma join_app_length l l' :
  (String.length (Py.join l) ≤ String.length (Py.join (l ++ l')))%nat.
Proof.
  revert l. induction l' as [|x l' IH]; intros l.
  - by rewrite app_nil_r.
  - replace (l ++ x :: l') with ((l ++ [x]) ++ l')
      by (by rewrite <- app_assoc).
    etrans; [| apply IH].
    destruct l as [|y l]; [simpl; lia |].
    rewrite join_snoc by done. rewrite string_length_app. lia.
Qed.

Lemma block_fold_fits mw ws B cur :
  exceeds mw (cur ++ ws) = false →
  fold_left (block_step mw) ws (B, cur) = (B, cur ++ ws).
Proof.
  revert cur. induction ws as [|w ws IH]; intros cur Hfit.
  - by rewrite app_nil_r.
  - cbn [fold_left]. unfold block_step at 2.
    assert (exceeds mw (cur ++ [w]) = false) as ->.
    { unfold exceeds in *. rewrite Z.gtb_ltb in *. apply Z.ltb_ge.
      apply Z.ltb_ge in Hfit. etrans; [| exact Hfit].
      apply estimated_width_mono.
      replace (cur ++ w :: ws) with ((cur ++ [w]) ++ ws)
        by (by rewrite <- app_assoc).
      apply join_app_length. }
    rewrite IH; [by rewrite <- app_assoc |].
    by rewrite <- app_assoc.
Qed.

(** X21: a text whose words, joined by single spaces, fit the width
    limit is drawn as one line, that joined text: runs of whitespace
    (newlines included) are collapsed and the ends are trimmed. *)
Theorem wrap_lines_single_line (text : string) (size : nat * nat) :
  Py.split text ≠ [] →
  estimated_width (Py.join (Py.split text)) ≤ max_width size →
  wrap_lines text size = [Py.join (Py.split text)].
Proof.
  intros Hne Hfit. rewrite wrap_lines_blocks. unfold wrap_blocks.
  rewrite block_fold_fits.
  - unfold block_finish. cbn [fst snd app].
    by destruct (Py.split text).
  - unfold exceeds. rewrite Z.gtb_ltb. by apply Z.ltb_ge.
Qed.

Lemma wrap_lines_single_line_witness :
  wrap_lines "  Q:  What is
 2+2? " default_size = ["Q: What is 2+2?"].
Proof.
  apply (wrap_lines_single_line "  Q:  What is
 2+2? " default_size).
  - discriminate.
  - vm_compute. discriminate.
Defined.

Lemma block_fold_nonempty mw ws B cur :
  cur ≠ [] →
  ∃ B' cur',
    fold_left (block_step mw) ws (B, cur) = (B ++ B', cur')
    ∧ cur' ≠ [] ∧ Forall (λ b, b ≠ []) B'
    ∧ concat B' ++ cur' = cur ++ ws.
Proof.
  revert B cur. induction ws as [|w ws IH]; intros B cur Hcur.
  - exists [], cur. rewrite !app_nil_r. by split_and!.
  - cbn [fold_left]. unfold block_step at 2.
    destruct (exceeds mw (cur ++ [w])).
    + destruct (IH (B ++ [cur]) [w]) as (B' & cur' & -> & ? & ? & Hcat);
        [done |].
      exists (cur :: B'), cur'. split_and!; [| done | by constructor |].
      * by rewrite <- app_assoc.
      * cbn [concat]. by rewrite <- app_assoc, Hcat.
    + destruct (IH B (cur ++ [w])) as (B' & cur' & -> & ? & ? & Hcat);
        [by destruct cur |].
      exists B', cur'. split_and!; [done.. |].
      by rewrite Hcat, <- app_assoc.
Qed.

(** The lines of a text with at least one word: an empty line first when
    the first word alone exceeds the limit, then lines that hold at least
    one word each. *)
Lemma wrap_blocks_shape mw w rest :
  ∃ L, wrap_blocks mw (w :: rest) =
         (if exceeds mw [w] then [[]] else []) ++ L
       ∧ L ≠ [] ∧ Forall (λ b, b ≠ []) L ∧ concat L = w :: rest.
Proof.
  unfold wrap_blocks. cbn [fold_left]. unfold block_step at 2.
  cbn [app].
  destruct (exceeds mw [w]).
  - destruct (block_fold_nonempty mw rest [[]] [w])
      as (B' & cur' & -> & Hcur & HB & Hcat); [done |].
    exists (B' ++ [cur']). unfold block_finish. cbn [fst snd].
    destruct cur' as [|c cur']; [done |].
    split_and!.
    + by rewrite <- app_assoc.
    + by destruct B'.
    + apply Forall_app. split; [done | by repeat constructor].
    + rewrite concat_app. simpl. by rewrite app_nil_r.
  - destruct (block_fold_nonempty mw rest [] [w])
      as (B' & cur' & -> & Hcur & HB & Hcat); [done |].
    exists (B' ++ [cur']). unfold block_finish. cbn [fst snd].
    destruct cur' as [|c cur']; [done |].
    split_and!.
    + done.
    + by destruct B'.
    + apply Forall_app. split; [done | by repeat constructor].
    + rewrite concat_app. simpl. by rewrite app_nil_r.
Qed.

Lemma join_nonempty b :
  b ≠ [] → Forall is_word b → Py.join b ≠ "".
Proof.
  destruct b as [|x b]; [done |]. intros _ [[Hx _] _]%Forall_cons.
  destruct x as [|c x]; [done |].
  destruct b; [done |]. by rewrite join_cons, string_app_cons.
Qed.

Lemma length_le_concat {A} (L : list (list A)) :
  Forall (λ b, b ≠ []) L → (List.length L ≤ List.length (concat L))%nat.
Proof.
  induction 1 as [|b L Hb _ IH]; [done |].
  cbn [concat List.length]. rewrite length_app.
  destruct b; [done |]. simpl. lia.
Qed.

(** X22: the list of lines is empty exactly when the text has no word;
    an empty line can only be the first line, and only when the first
    word alone exceeds the width limit; and there is at most one line
    more than there are words. *)
Theorem wrap_lines_empty_line (text : string) (size : nat * nat) :
  (wrap_lines text size = [] ↔ Py.split text = [])
  ∧ (∀ i, wrap_lines text size !! i = Some "" →
          i = 0%nat
          ∧ ∃ w rest, Py.split text = w :: rest
                      ∧ estimated_width w > max_width size)
  ∧ (List.length (wrap_lines text size) ≤ S (List.length (Py.split text)))%nat.
Proof.
  rewrite wrap_lines_blocks.
  pose proof (split_words text) as Hwords.
  destruct (Py.split text) as [|w rest] eqn:Hsplit.
  { split_and!; [done | by intros [|i] | simpl; lia]. }
  destruct (wrap_blocks_shape (max_width size) w rest)
    as (L & -> & HL & Hne & Hcat).
  assert (Forall (Forall is_word) L) as HLw.
  { apply Forall_concat_inv. by rewrite Hcat. }
  assert (∀ j, map Py.join L !! j ≠ Some "") as Hnoempty.
  { intros j Hj. rewrite list_lookup_fmap in Hj.
    destruct (L !! j) as [b|] eqn:Hb; [| done].
    simpl in Hj. injection Hj as Hj.
    apply (join_nonempty b); [| | done].
    - by eapply Forall_lookup_1 in Hne.
    - by eapply Forall_lookup_1 in HLw. }
  pose proof (length_le_concat L Hne) as Hlen. rewrite Hcat in Hlen.
  split_and!.
  - split; [| done]. rewrite map_app. intros [_ ?]%app_eq_nil.
    by destruct L.
  - intros i Hi. rewrite map_app in Hi.
    destruct (exceeds (max_width size) [w]) eqn:Hex.
    + destruct i as [|i]; [| by apply Hnoempty in Hi].
      split; [done |]. exists w, rest. split; [done |].
      unfold exceeds in Hex. rewrite join_singleton in Hex.
      apply Z.gtb_lt in Hex. lia.
    + by apply Hnoempty in Hi.
  - rewrite length_map, length_app.
    destruct (exceeds (max_width size) [w]); simpl in *; lia.
Qed.

(** ** [create_video]: the loop over the pairs *)

Lemma process_pairs_app (E : Env) n temp_path pre rest i all_clips w :
  process_pairs E n temp_path i (pre ++ rest) all_clips w =
  match process_pairs E n temp_path i pre all_clips w with
  | (Ok clips, w1) =>
      process_pairs E n temp_path (i + List.length pre) rest clips w1
  | (Raise e, w1) => (Raise e, w1)
  end.
Proof.
  revert i all_clips w. induction pre as [|row pre IH]; intros i all_clips w.
  - cbn [app process_pairs List.length]. unfold ret.
    by rewrite Nat.add_0_r.
  - destruct row as [|q [|a [|x row]]]; [done.. | | done].
    cbn [app process_pairs]. rewrite !bind_run, !print_run, !bind_run.
    destruct (create_qa_clip E (Py.strip q) (Py.strip a) temp_path i
                (printed w [MsgProcessing i n]))
      as [[cs | e] w1]; [| done].
    rewrite !bind_run, !print_run. rewrite IH. cbn [List.length].
    by rewrite Nat.add_succ_comm.
Qed.

(** X23: the loop stops at the first pair that fails: when the pairs
    before it were processed and [create_qa_clip] raises for a pair, the
    loop raises that exception in the world that pair left; the pairs
    after it are not touched, there is no retry and no skipping. *)
Theorem process_pairs_stops_at_failure (E : Env) (n : nat)
    (temp_path : string) (i : nat) (pre : list (list string))
    (question answer : string) (post : list (list string))
    (all_clips clips : list clip) (w w1 w2 : world) (e : exn) :
  process_pairs E n temp_path i pre all_clips w = (Ok clips, w1) →
  create_qa_clip E (Py.strip question) (Py.strip answer) temp_path
                 (i + List.length pre)
                 (printed w1 [MsgProcessing (i + List.length pre) n]) =
    (Raise e, w2) →
  process_pairs E n temp_path i (pre ++ [question; answer] :: post)
                all_clips w = (Raise e, w2).
Proof.
  intros Hpre Hfail. rewrite process_pairs_app, Hpre.
  cbn [process_pairs]. by rewrite bind_run, print_run, bind_run, Hfail.
Qed.

Lemma process_pairs_stops_at_failure_witness :
  ∃ w2,
    process_pairs (Demo.make_env Demo.speak_garbled Demo.encoder_ok) 2 "temp"
      1 ([] ++ ["What is 2+2?"; "4"] :: [["Capital of France?"; "Paris"]])
      [] Demo.empty_world =
    (Raise (RuntimeError "Failed to create or test audio files"), w2).
Proof.
  eexists.
  apply (process_pairs_stops_at_failure
           (Demo.make_env Demo.speak_garbled Demo.encoder_ok) 2 "temp" 1 []
           "What is 2+2?" "4" [["Capital of France?"; "Paris"]] [] []
           Demo.empty_world Demo.empty_world).
  - reflexivity.
  - vm_compute. reflexivity.
Defined.

Example engine_failure_propagates :
  create_qa_clip Extra.env_no_engine "What is 2+2?" "4" "temp" 1
                 Demo.empty_world =
  (Raise (LibraryError "No module named 'espeak'"), Demo.empty_world).
Proof. reflexivity. Qed.
